(** * Weather dashboard: a shallow embedding of [src/components/weather.js]

    The component keeps three pieces of React state ([city], [cities],
    [weatherData]), fetches two payloads per city and derives icons, daily
    groups and chart series from them.  The definitions below follow the
    source function by function and keep its names. *)

From Stdlib Require Import Ascii String QArith.
From stdpp Require Import base numbers option list strings pretty gmap.

Set Warnings "-register-all".

Local Open Scope string_scope.
Local Open Scope Z_scope.
Local Open Scope list_scope.

(** ** JavaScript strings

    Descriptions and city names are modelled as byte strings.  On the ASCII
    range [toLowerCase] maps 'A'..'Z' to 'a'..'z' and leaves every other
    character alone, which is what the model does for every byte. *)
Module JsString.

Definition lower_ascii (c : ascii) : ascii :=
  let n := N_of_ascii c in
  if ((65 <=? n) && (n <=? 90))%N then ascii_of_N (n + 32) else c.

Fixpoint toLowerCase (s : string) : string :=
  match s with
  | EmptyString => EmptyString
  | String c r => String (lower_ascii c) (toLowerCase r)
  end.



(** [s.includes(sub)]: [sub] occurs in [s] as a contiguous substring. *)
Fixpoint includes (s sub : string) : bool :=
  String.prefix sub s ||
  match s with
  | EmptyString => false
  | String _ r => includes r sub
  end.

(** Truthiness of a string: every string but the empty one. *)
Definition truthy (s : string) : bool :=
  match s with
  | EmptyString => false
  | String _ _ => true
  end.

End JsString.

Import JsString.

(** ** Icons (lines 49-80) *)

Inductive IconComponent : Set :=
| WiDaySunny | WiNightClear | WiDayCloudy | WiNightAltCloudy
| WiCloud | WiCloudy | WiShowers | WiRain | WiThunderstorm
| WiSnow | WiFog | WiDust.

(** The JSX element [<Wi... size={64} />]. *)
Record Element : Set := mkElement { component : IconComponent; size_prop : Z }.

(** Both call sites pass the flag, so its default [true] is not modelled. *)
Definition getWeatherIcon (description : string) (isDay : bool) : Element :=
  let lowerDesc := toLowerCase description in
  if includes lowerDesc "clear" then
    if isDay then mkElement WiDaySunny 64 else mkElement WiNightClear 64
  else if includes lowerDesc "few clouds" then
    if isDay then mkElement WiDayCloudy 64 else mkElement WiNightAltCloudy 64
  else if includes lowerDesc "scattered clouds" then
    mkElement WiCloud 64
  else if includes lowerDesc "broken clouds" || includes lowerDesc "overcast" then
    mkElement WiCloudy 64
  else if includes lowerDesc "shower" || includes lowerDesc "drizzle" then
    mkElement WiShowers 64
  else if includes lowerDesc "rain" then
    mkElement WiRain 64
  else if includes lowerDesc "thunderstorm" then
    mkElement WiThunderstorm 64
  else if includes lowerDesc "snow" || includes lowerDesc "sleet" then
    mkElement WiSnow 64
  else if includes lowerDesc "mist" || includes lowerDesc "fog" then
    mkElement WiFog 64
  else if includes lowerDesc "dust" || includes lowerDesc "sand" then
    mkElement WiDust 64
  else
    mkElement WiDaySunny 64.

(** Timestamps are whole seconds since the epoch. *)
Definition isDay (current sunrise sunset : Z) : bool :=
  (sunrise <? current) && (current <? sunset).

(** *** The priority list as the specification words it

    An ordered list of rules, each a set of alternative substrings and the
    category it selects; the first rule with a matching substring wins and
    a description matching none falls to the default. *)
Inductive Category : Set :=
| Clear | FewClouds | ScatteredClouds | BrokenOvercast | ShowerDrizzle
| Rain | Thunderstorm | SnowSleet | MistFog | DustSand | DefaultCategory.

Definition priority_rules : list (list string * Category) :=
  [ (["clear"], Clear);
    (["few clouds"], FewClouds);
    (["scattered clouds"], ScatteredClouds);
    (["broken clouds"; "overcast"], BrokenOvercast);
    (["shower"; "drizzle"], ShowerDrizzle);
    (["rain"], Rain);
    (["thunderstorm"], Thunderstorm);
    (["snow"; "sleet"], SnowSleet);
    (["mist"; "fog"], MistFog);
    (["dust"; "sand"], DustSand) ].





(** Every substring the rules look for. *)
Definition keywords : list string := concat priority_rules.*1.


(** ** Payloads: JavaScript values as [JSON.parse] produces them *)

Inductive value : Type :=
| VUndefined
| VNull
| VBool (b : bool)
| VNum (q : Q)
| VStr (s : string)
| VArr (items : list value)
| VObj (props : list (string * value)).

Fixpoint assoc {A : Type} (k : string) (l : list (string * A)) : option A :=
  match l with
  | [] => None
  | (k', a) :: rest => if String.eqb k k' then Some a else assoc k rest
  end.

(** [v.k] for the property names the component reads ([list], [dt], [main],
    [temp], [feels_like], [humidity], [wind], [speed], [weather],
    [description], [icon]): a [TypeError] ([None]) on [undefined] and
    [null], the own property of an object, [undefined] anywhere else, since
    no string, number, boolean or array has a member of one of these
    names. *)
Definition get (v : value) (k : string) : option value :=
  match v with
  | VUndefined | VNull => None
  | VObj props => Some (default VUndefined (assoc k props))
  | _ => Some VUndefined
  end.

(** [v[0]]. *)
Definition get0 (v : value) : option value :=
  match v with
  | VUndefined | VNull => None
  | VArr items => Some (default VUndefined (head items))
  | VStr (String c _) => Some (VStr (String c EmptyString))
  | VObj props => Some (default VUndefined (assoc "0" props))
  | _ => Some VUndefined
  end.

(** [v.map(f)]: only an array has a callable [map]; calling it on anything
    else is a [TypeError], and so is an exception thrown by the callback. *)
Definition js_map {B : Type} (f : value -> option B) (v : value) : option (list B) :=
  match v with
  | VArr items => mapM f items
  | _ => None
  end.

(** [v * 1000] converts [v] to a number first.  For the values
    [JSON.parse] produces the conversion throws a [TypeError] exactly on an
    object with an own property [toString] (a parsed value is never
    callable, and the inherited [valueOf] answers the object itself) and on
    an array that holds such an object, directly or inside nested arrays
    (the array's [toString] joins the conversions of its elements);
    [undefined], [null], booleans, numbers, strings and other objects
    convert without an exception. *)
Fixpoint ToNumber_throws (v : value) : bool :=
  match v with
  | VObj props =>
      match assoc "toString" props with
      | Some _ => true
      | None => false
      end
  | VArr items => existsb ToNumber_throws items
  | _ => false
  end.

(** ** The parts of the environment the component is given

    [API_KEY] comes from [../config]; [Date] values, their construction
    from a provider timestamp and the two locale formatters belong to the
    JavaScript engine. *)
Class Runtime : Type := {
  API_KEY : string;
  Date : Type;
  (** [new_Date dt] is [new Date(dt * 1000)] *)
  new_Date : value -> Date;
  (** [d.toLocaleDateString()] *)
  toLocaleDateString : Date -> string;
  (** [d.toLocaleTimeString([], { hour: '2-digit', minute: '2-digit' })] *)
  toLocaleTimeString : Date -> string
}.

(** ** axios

    [axios.get] resolves with the parsed body for a status in 200..299 and
    rejects on a transport failure or any other status. *)
Inductive NetOutcome : Type :=
| NetworkError
| Reply (status : Z) (data : value).

Inductive AxiosError : Set :=
| ErrNetwork
| ErrBadStatus (status : Z).

Inductive Settled : Type :=
| Fulfilled (data : value)
| Rejected (error : AxiosError).

Definition Network : Type := string -> NetOutcome.

Definition axios_get (net : Network) (url : string) : Settled :=
  match net url with
  | NetworkError => Rejected ErrNetwork
  | Reply status data =>
      if (200 <=? status) && (status <? 300) then Fulfilled data
      else Rejected (ErrBadStatus status)
  end.

Section Component.
Context `{RT : Runtime}.

(** ** State (lines 83-85) and fetch (lines 91-114) *)

Record ForecastPoint : Type := mkForecastPoint {
  date : Date;
  temp : value;
  feels_like : value;
  humidity : value;
  wind_speed : value;
  description : value;
  icon : value
}.

Record Snapshot : Type := mkSnapshot {
  current : value;
  forecast : list ForecastPoint
}.

Definition weather_url (cityName : string) : string :=
  "https://api.openweathermap.org/data/2.5/weather?q=" +:+ cityName +:+
  "&appid=" +:+ API_KEY +:+ "&units=metric".

Definition forecast_url (cityName : string) : string :=
  "https://api.openweathermap.org/data/2.5/forecast?q=" +:+ cityName +:+
  "&appid=" +:+ API_KEY +:+ "&units=metric".

(** The callback of [forecastResponse.data.list.map] (lines 100-108);
    [None] when it throws: on a property access through [undefined] or
    [null], and on [item.dt * 1000] when [item.dt] has no conversion to a
    number. *)
Definition forecast_item (item : value) : option ForecastPoint :=
  dt ← get item "dt";
  _ ← (if ToNumber_throws dt then None else Some ());
  main ← get item "main";
  temp ← get main "temp";
  feels_like ← get main "feels_like";
  humidity ← get main "humidity";
  wind ← get item "wind";
  speed ← get wind "speed";
  weather ← get item "weather";
  weather0 ← get0 weather;
  description ← get weather0 "description";
  icon ← get weather0 "icon";
  Some (mkForecastPoint (new_Date dt) temp feels_like humidity speed description icon).

(** The function handed to [setWeatherData] (lines 96-110).  React calls it
    with the store as it is when the update is processed; it is [None]
    when the body throws. *)
Definition updater (cityName : string) (weatherData forecastData : value)
    (prevData : gmap string Snapshot) : option (gmap string Snapshot) :=
  lst ← get forecastData "list";
  fc ← js_map forecast_item lst;
  Some (<[cityName := mkSnapshot weatherData fc]> prevData).

(** What one run of [fetchWeather] does once its requests have settled:
    the [catch] branch logs, the [try] branch hands an updater to React. *)
Inductive FetchEffect : Type :=
| ConsoleError (message : string) (error : AxiosError)
| SetWeatherData (f : gmap string Snapshot -> option (gmap string Snapshot)).

Definition fetchWeather (cityName : string) (net : Network) : FetchEffect :=
  match axios_get net (weather_url cityName) with
  | Rejected error => ConsoleError "Error fetching the weather data" error
  | Fulfilled weatherData =>
      match axios_get net (forecast_url cityName) with
      | Rejected error => ConsoleError "Error fetching the weather data" error
      | Fulfilled forecastData =>
          SetWeatherData (updater cityName weatherData forecastData)
      end
  end.

(** The state of the component.  [inflight] lists the [fetchWeather] calls
    that have been started and have not settled; [console] is the log
    written by [console.error].

    React re-renders after each click before the next handler runs, so a
    handler reads the [city] and [cities] of the state it is applied to;
    the functions given to [setWeatherData] are applied, in the order they
    were queued, to the store as it is then.  Each event is therefore one
    transition of the state. *)
Record State : Type := mkState {
  city : string;
  cities : list string;
  weatherData : gmap string Snapshot;
  inflight : list string;
  console : list (string * AxiosError)
}.

Definition initial : State := mkState "" [] ∅ [] [].

Definition handleInputChange (v : string) (st : State) : State :=
  mkState v (cities st) (weatherData st) (inflight st) (console st).

(** Lines 116-122. *)
Definition handleAddCity (st : State) : State :=
  if truthy (city st) && negb (bool_decide (city st ∈ cities st)) then
    mkState "" (cities st ++ [city st]) (weatherData st)
            (inflight st ++ [city st]) (console st)
  else st.

(** Lines 124-130. *)
Definition handleDeleteCity (cityName : string) (st : State) : State :=
  mkState (city st)
          (filter (fun c => c ≠ cityName) (cities st))
          (delete cityName (weatherData st))
          (inflight st) (console st).

Fixpoint remove_first (x : string) (l : list string) : list string :=
  match l with
  | [] => []
  | y :: r => if String.eqb x y then r else y :: remove_first x r
  end.

(** A started fetch settles: its effect is applied to the state as it is
    then.  [None] when no such fetch is in flight, and when the updater
    throws: that exception is raised while React processes the update,
    outside the [try] of [fetchWeather]. *)
Definition settle (cityName : string) (net : Network) (st : State) : option State :=
  if bool_decide (cityName ∈ inflight st) then
    match fetchWeather cityName net with
    | ConsoleError message error =>
        Some (mkState (city st) (cities st) (weatherData st)
                      (remove_first cityName (inflight st))
                      (console st ++ [(message, error)]))
    | SetWeatherData f =>
        next ← f (weatherData st);
        Some (mkState (city st) (cities st) next
                      (remove_first cityName (inflight st)) (console st))
    end
  else None.

Inductive Event : Type :=
| InputChange (v : string)
| ClickAdd
| ClickDelete (cityName : string)
| FetchSettles (cityName : string) (net : Network).

Definition step (st : State) (e : Event) : option State :=
  match e with
  | InputChange v => Some (handleInputChange v st)
  | ClickAdd => Some (handleAddCity st)
  | ClickDelete cityName => Some (handleDeleteCity cityName st)
  | FetchSettles cityName net => settle cityName net st
  end.

Fixpoint run (st : State) (evs : list Event) : option State :=
  match evs with
  | [] => Some st
  | e :: rest => st' ← step st e; run st' rest
  end.

End Component.

(** ** Grouping the forecast for the cards (lines 210-219)

    [groupedForecast] is built in a plain object.  An object literal
    inherits the members of [Object.prototype], and [Object.entries] lists
    own keys that are array indices first, in ascending numeric order,
    then the remaining keys in the order they were created. *)
Definition Object_prototype_names : list string :=
  [ "constructor"; "hasOwnProperty"; "isPrototypeOf"; "propertyIsEnumerable";
    "toLocaleString"; "toString"; "valueOf"; "__proto__";
    "__defineGetter__"; "__defineSetter__"; "__lookupGetter__"; "__lookupSetter__" ].

Definition JsObject (A : Type) : Type := list (string * A).

Inductive Lookup (A : Type) : Type :=
| Own (a : A)
| Inherited
| Missing.
Arguments Own {A} a.
Arguments Inherited {A}.
Arguments Missing {A}.

Definition obj_get {A : Type} (o : JsObject A) (k : string) : Lookup A :=
  match assoc k o with
  | Some a => Own a
  | None => if bool_decide (k ∈ Object_prototype_names) then Inherited else Missing
  end.

Fixpoint obj_set {A : Type} (o : JsObject A) (k : string) (a : A) : JsObject A :=
  match o with
  | [] => [(k, a)]
  | (k', a') :: rest =>
      if String.eqb k k' then (k', a) :: rest else (k', a') :: obj_set rest k a
  end.

Definition is_digit (c : ascii) : bool :=
  ((48 <=? N_of_ascii c) && (N_of_ascii c <=? 57))%N.

Fixpoint digits_value (s : string) (acc : N) : option N :=
  match s with
  | EmptyString => Some acc
  | String c r =>
      if is_digit c then digits_value r (acc * 10 + (N_of_ascii c - 48))%N else None
  end.

(** The array index a key denotes: a canonical decimal numeral below
    2^32 - 1. *)
Definition array_index (k : string) : option N :=
  match k with
  | EmptyString => None
  | String c r =>
      if Ascii.eqb c "0" && negb (String.eqb r "") then None
      else n ← digits_value k 0; if (n <? 4294967295)%N then Some n else None
  end.

Fixpoint insert_by_index {A : Type} (e : N * A) (l : list (N * A)) : list (N * A) :=
  match l with
  | [] => [e]
  | e' :: rest => if (e.1 <=? e'.1)%N then e :: l else e' :: insert_by_index e rest
  end.

Definition Object_entries {A : Type} (o : JsObject A) : list (string * A) :=
  (foldr insert_by_index [] (omap (fun e => n ← array_index e.1; Some (n, e)) o)).*2
  ++ filter (fun e => array_index e.1 = None) o.

Fixpoint reduce {A B : Type} (f : B -> A -> option B) (acc : B) (l : list A) : option B :=
  match l with
  | [] => Some acc
  | x :: rest => acc' ← f acc x; reduce f acc' rest
  end.

Section Component.
Context `{RT : Runtime}.

(** The key of the group a point goes to. *)
Definition day_of (item : ForecastPoint) : string :=
  toLocaleDateString (date item).

(** The reducer of lines 210-217; [None] when [acc[date]] is an inherited
    member, which is truthy and has no [push]. *)
Definition group_step (acc : JsObject (list ForecastPoint)) (item : ForecastPoint)
    : option (JsObject (list ForecastPoint)) :=
  let date := day_of item in
  match obj_get acc date with
  | Missing => Some (obj_set acc date [item])
  | Own items => Some (obj_set acc date (items ++ [item]))
  | Inherited => None
  end.

Definition groupedForecast (forecast : list ForecastPoint)
    : option (JsObject (list ForecastPoint)) :=
  reduce group_step [] forecast.

(** The cards in the order they are rendered: one per entry of
    [groupedForecast], with its date key and its items. *)
Definition forecastCards (forecast : list ForecastPoint)
    : option (list (string * list ForecastPoint)) :=
  Object_entries <$> groupedForecast forecast.

(** ** Chart data (lines 132-161) *)

Record Dataset : Type := mkDataset {
  label : string;
  data : list value;
  borderColor : string;
  backgroundColor : string;
  yAxisID : string
}.

Record ChartData : Type := mkChartData {
  labels : list string;
  datasets : list Dataset
}.

Definition generateChartData (forecast : list ForecastPoint) : ChartData :=
  mkChartData
    (map (fun item => toLocaleTimeString (date item)) forecast)
    [ mkDataset "Temperature (°C)" (map (fun item => temp item) forecast)
        "rgba(255, 99, 132, 1)" "rgba(255, 99, 132, 0.2)" "y-axis-1";
      mkDataset "Humidity (%)" (map (fun item => humidity item) forecast)
        "rgba(54, 162, 235, 1)" "rgba(54, 162, 235, 0.2)" "y-axis-2";
      mkDataset "Wind Speed (m/s)" (map (fun item => wind_speed item) forecast)
        "rgba(75, 192, 192, 1)" "rgba(75, 192, 192, 0.2)" "y-axis-3" ].

(** The two entry points of the registry as the specification names them:
    the user types [name] and presses the button; the user presses the
    delete button of [name]. *)
Definition addCity (name : string) (st : State) : State :=
  handleAddCity (handleInputChange name st).

Definition removeCity (name : string) (st : State) : State :=
  handleDeleteCity name st.

(** ** The registry as the specification words it

    A sequence of calls; the names added and not removed afterwards, each
    listed once at the place of its first such insertion. *)
Inductive Call : Set :=
| CallAdd (name : string)
| CallRemove (name : string).

Definition apply_call (st : State) (c : Call) : State :=
  match c with
  | CallAdd name => addCity name st
  | CallRemove name => removeCity name st
  end.

Definition run_calls (st : State) (calls : list Call) : State :=
  fold_left apply_call calls st.

End Component.

Definition removes (name : string) (c : Call) : bool :=
  match c with
  | CallRemove name' => String.eqb name name'
  | CallAdd _ => false
  end.

Definition removed_later (name : string) (calls : list Call) : bool :=
  existsb (removes name) calls.

Fixpoint surviving_adds (calls : list Call) : list string :=
  match calls with
  | [] => []
  | CallAdd name :: rest =>
      if truthy name && negb (removed_later name rest)
      then name :: surviving_adds rest
      else surviving_adds rest
  | CallRemove _ :: rest => surviving_adds rest
  end.

(** Every element once, at the place of its first occurrence. *)
Fixpoint keep_first (l : list string) : list string :=
  match l with
  | [] => []
  | x :: rest => x :: filter (fun y => y ≠ x) (keep_first rest)
  end.

Definition registry_spec (calls : list Call) : list string :=
  keep_first (surviving_adds calls).

(** A name made of white space only (the empty name included). *)
Definition is_space (c : ascii) : bool :=
  let n := N_of_ascii c in ((n =? 32) || ((9 <=? n) && (n <=? 13)))%N.

Fixpoint blank (s : string) : bool :=
  match s with
  | EmptyString => true
  | String c r => is_space c && blank r
  end.

(** ** A concrete runtime for the examples

    A UTC clock printing dates as month/day/year and times as HH:MM.  A
    timestamp that is not a number gives the invalid date. *)
Module Utc.

Definition time_clip (t : Z) : option Z :=
  if (Z.abs t <=? 8640000000000000) then Some t else None.

Definition new_Date (dt : value) : option Z :=
  match dt with
  | VNum q => let ms := (q * 1000)%Q in time_clip (Z.quot (Qnum ms) (Zpos (Qden ms)))
  | _ => None
  end.

(** Year, month and day of a day number counted from 1970-01-01. *)
Definition civil_from_days (days : Z) : Z * Z * Z :=
  let z := days + 719468 in
  let era := z / 146097 in
  let doe := z - era * 146097 in
  let yoe := (doe - doe / 1460 + doe / 36524 - doe / 146096) / 365 in
  let doy := doe - (365 * yoe + yoe / 4 - yoe / 100) in
  let mp := (5 * doy + 2) / 153 in
  let d := doy - (153 * mp + 2) / 5 + 1 in
  let m := if mp <? 10 then mp + 3 else mp - 9 in
  let y := yoe + era * 400 + (if m <=? 2 then 1 else 0) in
  (y, m, d).

Definition two_digits (n : Z) : string :=
  if n <? 10 then "0" +:+ pretty n else pretty n.

Definition toLocaleDateString (d : option Z) : string :=
  match d with
  | None => "Invalid Date"
  | Some ms =>
      let '(y, m, dd) := civil_from_days (ms / 86400000) in
      pretty m +:+ "/" +:+ pretty dd +:+ "/" +:+ pretty y
  end.

Definition toLocaleTimeString (d : option Z) : string :=
  match d with
  | None => "Invalid Date"
  | Some ms =>
      let s := (ms / 1000) mod 86400 in
      two_digits (s / 3600) +:+ ":" +:+ two_digits ((s mod 3600) / 60)
  end.

End Utc.

#[local] Instance utc_runtime : Runtime := {|
  API_KEY := "0123456789abcdef";
  Date := option Z;
  new_Date := Utc.new_Date;
  toLocaleDateString := Utc.toLocaleDateString;
  toLocaleTimeString := Utc.toLocaleTimeString
|}.

(** Provider payloads used in the examples. *)
Definition forecast_entry (dt : Z) (temp humidity speed : Q) (description : string) : value :=
  VObj [ ("dt", VNum (inject_Z dt));
         ("main", VObj [ ("temp", VNum temp); ("feels_like", VNum temp);
                         ("humidity", VNum humidity) ]);
         ("wind", VObj [ ("speed", VNum speed) ]);
         ("weather", VArr [ VObj [ ("description", VStr description);
                                   ("icon", VStr "10d") ] ]) ].

Definition paris_current : value :=
  VObj [ ("name", VStr "Paris"); ("dt", VNum (inject_Z 1700000000));
         ("main", VObj [ ("temp", VNum (183 # 10)); ("feels_like", VNum (18 # 1));
                         ("humidity", VNum (60 # 1)); ("pressure", VNum (1012 # 1)) ]);
         ("wind", VObj [ ("speed", VNum (41 # 10)) ]);
         ("weather", VArr [ VObj [ ("description", VStr "light rain"); ("icon", VStr "10d") ] ]);
         ("sys", VObj [ ("country", VStr "FR"); ("sunrise", VNum (inject_Z 1699945000));
                        ("sunset", VNum (inject_Z 1699980000)) ]) ].

Definition paris_forecast : value :=
  VObj [ ("list", VArr [ forecast_entry 1700006400 (175 # 10) (62 # 1) (4 # 1) "light rain";
                         forecast_entry 1700017200 (161 # 10) (70 # 1) (35 # 10) "overcast clouds" ]) ].

(** A provider that answers both lookups for [cityName] with status 200. *)
Definition provider (cityName : string) (currentData forecastData : value) : Network :=
  fun url =>
    if String.eqb url (weather_url cityName) then Reply 200 currentData
    else if String.eqb url (forecast_url cityName) then Reply 200 forecastData
    else Reply 404 (VObj [ ("cod", VStr "404"); ("message", VStr "city not found") ]).

Definition unreachable : Network := fun _ => NetworkError.

(** A provider whose forecast endpoint is down. *)
Definition forecast_down (cityName : string) (currentData : value) : Network :=
  fun url =>
    if String.eqb url (weather_url cityName) then Reply 200 currentData
    else Reply 503 VNull.

Definition paris_network : Network := provider "Paris" paris_current paris_forecast.

Definition oslo_snapshot : Snapshot := mkSnapshot (VObj [("name", VStr "Oslo")]) [].

Definition three_points : list ForecastPoint :=
  [ mkForecastPoint (Some 1700006400000) (VNum (175 # 10)) (VNum (17 # 1)) (VNum (62 # 1))
      (VNum (4 # 1)) (VStr "light rain") (VStr "10d");
    mkForecastPoint (Some 1700092800000) (VNum (12 # 1)) (VNum (11 # 1)) (VNum (80 # 1))
      (VNum (2 # 1)) (VStr "clear sky") (VStr "01d");
    mkForecastPoint (Some 1700017200000) (VNum (161 # 10)) (VNum (16 # 1)) (VNum (70 # 1))
      (VNum (35 # 10)) (VStr "overcast clouds") (VStr "04d") ].

(** ** Notions used to state the properties of the store *)

(** The fields of the current-conditions payload the specification
    lists and the component displays (lines 290-333). *)
Fixpoint at_path (v : value) (path : list string) : option value :=
  match path with
  | [] => Some v
  | k :: rest => v' ← (if String.eqb k "0" then get0 v else get v k); at_path v' rest
  end.

Definition present (v : value) (path : list string) : bool :=
  match at_path v path with
  | None | Some VUndefined => false
  | Some _ => true
  end.

Definition current_fields : list (list string) :=
  [ ["name"]; ["dt"]; ["main"; "temp"]; ["main"; "feels_like"]; ["main"; "humidity"];
    ["main"; "pressure"]; ["wind"; "speed"]; ["weather"; "0"; "description"];
    ["sys"; "country"]; ["sys"; "sunrise"]; ["sys"; "sunset"] ].

Definition current_well_formed (v : value) : bool :=
  forallb (present v) current_fields.

Section Runs.
Context `{RT : Runtime}.

(** A fetch settles in time when its city is still in the registry. *)
Definition in_time (st : State) (e : Event) : bool :=
  match e with
  | FetchSettles cityName _ => bool_decide (cityName ∈ cities st)
  | _ => true
  end.

Fixpoint all_in_time (st : State) (evs : list Event) : bool :=
  match evs with
  | [] => true
  | e :: rest =>
      in_time st e &&
      match step st e with
      | Some st' => all_in_time st' rest
      | None => true
      end
  end.

(** The event is a fetch for [x] that settles with an update of the
    store. *)
Definition writes (x : string) (e : Event) : Prop :=
  match e with
  | FetchSettles cityName net =>
      cityName = x ∧ ∃ f, fetchWeather cityName net = SetWeatherData f
  | _ => False
  end.

End Runs.

(** ** Grouping as the specification words it

    One group per calendar day, days in the order of their first
    occurrence, each group holding the points of its day in input order. *)
Section Groups.
Context `{RT : Runtime}.

Definition groups_of (forecast : list ForecastPoint) : list (string * list ForecastPoint) :=
  map (fun d => (d, filter (fun p => day_of p = d) forecast))
      (keep_first (map day_of forecast)).

End Groups.

(** A key that is neither an array index nor the name of an inherited
    member; the date strings of the locale formatters, which contain
    separators, are of this kind. *)
Definition ordinary_key (k : string) : bool :=
  bool_decide (array_index k = None) && negb (bool_decide (k ∈ Object_prototype_names)).

(** ** Notions used to state further properties of the component *)

(** [undefined] and [null], the two values a property access throws on. *)
Definition nullish (v : value) : bool :=
  match v with
  | VUndefined | VNull => true
  | _ => false
  end.

(** What the mapping callback needs of a forecast entry: the entry
    itself, [main], [wind], [weather] and [weather[0]] are neither
    [undefined] nor [null], and [dt] converts to a number. *)
Definition item_readable (item : value) : bool :=
  match get item "dt", get item "main", get item "wind", get item "weather" with
  | Some dt, Some main, Some wind, Some weather =>
      negb (ToNumber_throws dt) &&
      negb (nullish main) && negb (nullish wind) &&
      match get0 weather with
      | Some weather0 => negb (nullish weather0)
      | None => false
      end
  | _, _, _, _ => false
  end.

(** [v.k] and [v[0]] where the access is known not to throw. *)
Definition prop (v : value) (k : string) : value := default VUndefined (get v k).

Definition prop0 (v : value) : value := default VUndefined (get0 v).

(** * Properties *)

(** ** Icons and daytime *)

Example icon_light_rain_showers :
  getWeatherIcon "light rain showers" true = mkElement WiShowers 64.
Proof. reflexivity. Qed.

Example icon_upper_case :
  getWeatherIcon "Thunderstorm with HEAVY Rain" false = mkElement WiRain 64.
Proof. reflexivity. Qed.

Example icon_clear_night :
  getWeatherIcon "clear sky" false = mkElement WiNightClear 64.
Proof. reflexivity. Qed.







(** C6: [isDay] answers true exactly when the timestamp lies strictly
    between sunrise and sunset; at sunrise and at sunset it answers
    false. *)
Theorem isDay_strictly_between (t sunrise sunset : Z) :
  (isDay t sunrise sunset = true ↔ sunrise < t ∧ t < sunset) ∧
  isDay sunrise sunrise sunset = false ∧
  isDay sunset sunrise sunset = false.
Proof.
  unfold isDay. split; [|split].
  - rewrite andb_true_iff, !Z.ltb_lt. done.
  - by rewrite Z.ltb_irrefl.
  - rewrite Z.ltb_irrefl. apply andb_false_r.
Qed.




(** C10: a description matching none of the rules gets the daytime sunny
    icon under both flags. *)
Theorem getWeatherIcon_default (description : string) :
  Forall (fun k => includes (toLowerCase description) k = false) keywords →
  getWeatherIcon description true = mkElement WiDaySunny 64 ∧
  getWeatherIcon description false = mkElement WiDaySunny 64.
Proof.
  intros H. unfold getWeatherIcon. cbv zeta.
  assert (Hk : ∀ k, k ∈ keywords → includes (toLowerCase description) k = false).
  { by apply Forall_forall. }
  rewrite !Hk by (unfold keywords; cbn; set_solver).
  done.
Qed.

Lemma getWeatherIcon_default_witness :
  getWeatherIcon "volcanic ash" true = mkElement WiDaySunny 64 ∧
  getWeatherIcon "volcanic ash" false = mkElement WiDaySunny 64.
Proof.
  apply (getWeatherIcon_default "volcanic ash").
  unfold keywords. cbn. repeat constructor.
Defined.

(** ** The registry *)

Lemma truthy_true (s : string) : truthy s = true ↔ s ≠ "".
Proof. destruct s; cbn; split; congruence. Qed.

Lemma elem_of_keep_first (x : string) (l : list string) : x ∈ keep_first l ↔ x ∈ l.
Proof.
  induction l as [|y l IH]; cbn [keep_first]; [done|].
  rewrite !elem_of_cons, list_elem_of_filter, IH.
  destruct (decide (x = y)); tauto.
Qed.

Lemma NoDup_keep_first (l : list string) : NoDup (keep_first l).
Proof.
  induction l as [|y l IH]; cbn [keep_first]; constructor.
  - rewrite list_elem_of_filter. by intros [? _].
  - by apply NoDup_filter.
Qed.

Lemma filter_all {A : Type} (P : A → Prop) `{!∀ x, Decision (P x)} (l : list A) :
  (∀ x, x ∈ l → P x) → filter P l = l.
Proof.
  induction l as [|y l IH]; intros Hall; [done|].
  rewrite filter_cons_True by (apply Hall; left).
  f_equal. apply IH. intros x Hx. apply Hall. by right.
Qed.

Lemma keep_first_NoDup (l : list string) : NoDup l → keep_first l = l.
Proof.
  induction 1 as [|y l Hy _ IH]; cbn [keep_first]; [done|].
  rewrite IH. f_equal. apply filter_all. intros x Hx ->. done.
Qed.

Lemma filter_keep_first (P : string → Prop) `{!∀ x, Decision (P x)} (l : list string) :
  filter P (keep_first l) = keep_first (filter P l).
Proof.
  induction l as [|y l IH]; cbn [keep_first]; [done|].
  rewrite !filter_cons. destruct (decide (P y)) as [Hy|Hy]; cbn [keep_first].
  - f_equal. rewrite <- IH. rewrite !list_filter_filter.
    apply list_filter_iff. intros x. tauto.
  - rewrite <- IH. rewrite list_filter_filter.
    apply list_filter_iff. intros x. split; [tauto|].
    intros Hx. split; [done|]. by intros ->.
Qed.

Lemma keep_first_app_elem (x : string) (l1 l2 : list string) :
  x ∈ l1 → keep_first (l1 ++ x :: l2) = keep_first (l1 ++ l2).
Proof.
  induction l1 as [|y l1 IH]; intros Hx; [by apply elem_of_nil in Hx|].
  cbn [app keep_first]. f_equal. destruct (decide (x = y)) as [->|Hne].
  - rewrite !filter_keep_first, !filter_app.
    by rewrite filter_cons_False by (intros Hy; by apply Hy).
  - apply elem_of_cons in Hx as [?|Hx]; [done|]. by rewrite IH.
Qed.

Section Registry.
Context `{RT : Runtime}.

Lemma addCity_skip (name : string) (st : State) :
  name = "" ∨ name ∈ cities st →
  addCity name st = handleInputChange name st.
Proof.
  intros H. unfold addCity, handleAddCity. cbn.
  destruct H as [->|H]; [done|].
  rewrite (bool_decide_eq_true_2 _ H). by rewrite andb_false_r.
Qed.

Lemma addCity_append (name : string) (st : State) :
  name ≠ "" → name ∉ cities st →
  addCity name st =
    mkState "" (cities st ++ [name]) (weatherData st) (inflight st ++ [name]) (console st).
Proof.
  intros Hne Hnin. unfold addCity, handleAddCity. cbn.
  rewrite (proj2 (truthy_true name) Hne), (bool_decide_eq_false_2 _ Hnin). done.
Qed.

Lemma run_calls_cities (calls : list Call) (st : State) :
  NoDup (cities st) →
  NoDup (cities (run_calls st calls)) ∧
  cities (run_calls st calls) =
    keep_first (filter (fun n => removed_later n calls = false) (cities st)
                ++ surviving_adds calls).
Proof.
  revert st. induction calls as [|c calls IH]; intros st Hnd.
  - cbn. split; [done|]. rewrite app_nil_r, filter_all by done.
    by rewrite keep_first_NoDup.
  - unfold run_calls in *. cbn [fold_left].
    assert (Hstep : NoDup (cities (apply_call st c)) ∧
      keep_first (filter (fun n => removed_later n calls = false)
                         (cities (apply_call st c)) ++ surviving_adds calls) =
      keep_first (filter (fun n => removed_later n (c :: calls) = false) (cities st)
                  ++ surviving_adds (c :: calls))).
    { destruct c as [name|name]; cbn [apply_call surviving_adds].
      - change (fun n => removed_later n (CallAdd name :: calls) = false)
          with (fun n => removed_later n calls = false).
        destruct (decide (name = "")) as [->|Hne].
        { by rewrite addCity_skip by (by left). }
        rewrite (proj2 (truthy_true name) Hne). cbn [andb].
        destruct (decide (name ∈ cities st)) as [Hin|Hnin].
        + rewrite addCity_skip by (by right). cbn [cities handleInputChange].
          split; [done|].
          destruct (removed_later name calls) eqn:Hr; cbn [negb]; [done|].
          rewrite keep_first_app_elem; [done|].
          by apply list_elem_of_filter.
        + rewrite addCity_append by done. cbn [cities]. split.
          { apply NoDup_app. split; [done|]. split; [|apply NoDup_singleton].
            intros x Hx ->%list_elem_of_singleton. done. }
          rewrite filter_app, filter_cons, filter_nil.
          destruct (decide (removed_later name calls = false)) as [->|Hr]; cbn [negb].
          * by rewrite <- app_assoc.
          * apply not_false_is_true in Hr. rewrite Hr. cbn [negb].
            by rewrite app_nil_r.
      - cbn [removeCity handleDeleteCity cities]. split; [by apply NoDup_filter|].
        rewrite list_filter_filter. f_equal. f_equal.
        apply list_filter_iff. intros x. cbn [removed_later existsb removes].
        destruct (String.eqb_spec x name); cbn [orb]; split.
        + intros [_ ?]; done.
        + intros; done.
        + intros [? _]; done.
        + intros; done. }
    destruct Hstep as [Hnd' Heq].
    destruct (IH _ Hnd') as [IH1 IH2]. split; [done|].
    by rewrite IH2, Heq.
Qed.

(** C3 (amended): [addCity name] leaves the registry, the store and the
    set of running fetches as they are when [name] is the empty string or
    is already in the registry (compared as strings); for any other name,
    a name of white space only included, it puts [name] at the end of the
    registry and starts exactly one fetch, for [name]. *)
Theorem addCity_registry (name : string) (st : State) :
  (name = "" ∨ name ∈ cities st →
     cities (addCity name st) = cities st ∧
     length (cities (addCity name st)) = length (cities st) ∧
     inflight (addCity name st) = inflight st ∧
     weatherData (addCity name st) = weatherData st) ∧
  (name ≠ "" → name ∉ cities st →
     cities (addCity name st) = cities st ++ [name] ∧
     inflight (addCity name st) = inflight st ++ [name] ∧
     weatherData (addCity name st) = weatherData st).
Proof.
  split.
  - intros H. by rewrite addCity_skip.
  - intros Hne Hnin. by rewrite addCity_append.
Qed.

(** C4: after any sequence of [addCity] and [removeCity] calls from the
    empty state the registry has no duplicates and lists the names added
    and not removed afterwards (a removal cancels the insertions made
    before it), in the order of their insertion. *)
Theorem registry_after_calls (calls : list Call) :
  NoDup (cities (run_calls initial calls)) ∧
  cities (run_calls initial calls) = registry_spec calls.
Proof.
  destruct (run_calls_cities calls initial) as [H1 H2]; [constructor|].
  split; [done|]. by rewrite H2.
Qed.

End Registry.

(** C3, as stated for blank names: a name made of white space only is
    not skipped. *)
Lemma addCity_blank_is_added :
  ¬ (∀ (name : string) (st : State),
       blank name = true ∨ name ∈ cities st →
       cities (addCity name st) = cities st ∧ inflight (addCity name st) = inflight st).
Proof.
  intros H. destruct (H " " initial) as [Hc _]; [by left|]. discriminate Hc.
Qed.

Lemma addCity_registry_witness :
  cities (addCity "" (addCity "Oslo" initial)) = ["Oslo"] ∧
  cities (addCity "Oslo" (addCity "Oslo" initial)) = ["Oslo"] ∧
  cities (addCity "Rome" (addCity "Oslo" initial)) = ["Oslo"; "Rome"] ∧
  inflight (addCity "Rome" (addCity "Oslo" initial)) = ["Oslo"; "Rome"].
Proof.
  destruct (addCity_registry "" (addCity "Oslo" initial)) as [He _].
  destruct (addCity_registry "Oslo" (addCity "Oslo" initial)) as [Hd _].
  destruct (addCity_registry "Rome" (addCity "Oslo" initial)) as [_ Ha].
  split; [apply He; by left|].
  split; [apply Hd; right; vm_compute; apply list_elem_of_here|].
  destruct Ha as (Hc & Hi & _).
  - discriminate.
  - vm_compute. intros H. apply list_elem_of_singleton in H. discriminate H.
  - split; [exact Hc | exact Hi].
Defined.

Example registry_readd :
  cities (run_calls initial [CallAdd "A"; CallAdd "B"; CallRemove "A"; CallAdd "A"; CallAdd "B"])
  = ["B"; "A"].
Proof. reflexivity. Qed.

(** ** The store *)

Section Store.
Context `{RT : Runtime}.

Lemma fetchWeather_set (cityName : string) (net : Network)
    (f : gmap string Snapshot → option (gmap string Snapshot)) :
  fetchWeather cityName net = SetWeatherData f →
  ∃ w fd, axios_get net (weather_url cityName) = Fulfilled w ∧
          axios_get net (forecast_url cityName) = Fulfilled fd ∧
          f = updater cityName w fd.
Proof.
  unfold fetchWeather.
  destruct (axios_get net (weather_url cityName)) as [w|]; [|discriminate].
  destruct (axios_get net (forecast_url cityName)) as [fd|]; [|discriminate].
  intros [= <-]. by exists w, fd.
Qed.

Lemma fetchWeather_rejected (cityName : string) (net : Network) :
  (∃ e, axios_get net (weather_url cityName) = Rejected e) ∨
  (∃ e, axios_get net (forecast_url cityName) = Rejected e) →
  ∃ error, fetchWeather cityName net =
             ConsoleError "Error fetching the weather data" error.
Proof.
  unfold fetchWeather. intros [[e He]|[e He]].
  - rewrite He. by exists e.
  - destruct (axios_get net (weather_url cityName)) as [w|e']; [|by exists e'].
    rewrite He. by exists e.
Qed.

Lemma updater_inv (cityName : string) (w fd : value) (prevData next : gmap string Snapshot) :
  updater cityName w fd prevData = Some next →
  ∃ lst fc, get fd "list" = Some lst ∧ js_map forecast_item lst = Some fc ∧
            next = <[cityName := mkSnapshot w fc]> prevData.
Proof.
  unfold updater. intros H.
  destruct (get fd "list") as [lst|] eqn:Hl; [|discriminate]. cbn in H.
  destruct (js_map forecast_item lst) as [fc|] eqn:Hm; [|discriminate]. cbn in H.
  injection H as <-. by exists lst, fc.
Qed.

Lemma settle_inv (cityName : string) (net : Network) (st st' : State) :
  settle cityName net st = Some st' →
  cityName ∈ inflight st ∧
  city st' = city st ∧ cities st' = cities st ∧
  inflight st' = remove_first cityName (inflight st) ∧
  ((∃ message error,
       fetchWeather cityName net = ConsoleError message error ∧
       weatherData st' = weatherData st ∧
       console st' = console st ++ [(message, error)]) ∨
   (∃ f, fetchWeather cityName net = SetWeatherData f ∧
       f (weatherData st) = Some (weatherData st') ∧
       console st' = console st)).
Proof.
  unfold settle. case_bool_decide as Hin; [|discriminate].
  destruct (fetchWeather cityName net) as [message error|f] eqn:Hf.
  - intros [= <-]. cbn. repeat split; [done|]. left. by exists message, error.
  - destruct (f (weatherData st)) as [next|] eqn:Hn; [|discriminate].
    cbn. intros [= <-]. cbn. repeat split; [done|]. right. by exists f.
Qed.

(** C5: the update made by a successful fetch for [cityName] merges the
    new snapshot under [cityName] only: the entry of every other key is as
    it is in the store the update is applied to, whatever was written to
    that store while the fetch was running, and the entry of [cityName] is
    the snapshot made of the current-conditions payload received and the
    forecast mapped from the forecast payload received, in place of any
    earlier one. *)
Theorem fetch_merge_is_keyed (cityName k : string) (net : Network) :
  k ≠ cityName →
  (∀ f prevData next,
     fetchWeather cityName net = SetWeatherData f →
     f prevData = Some next →
     next !! k = prevData !! k ∧
     ∃ w fd lst fc,
       axios_get net (weather_url cityName) = Fulfilled w ∧
       axios_get net (forecast_url cityName) = Fulfilled fd ∧
       get fd "list" = Some lst ∧
       js_map forecast_item lst = Some fc ∧
       next !! cityName = Some (mkSnapshot w fc) ∧
       next = <[cityName := mkSnapshot w fc]> prevData) ∧
  (∀ st st',
     settle cityName net st = Some st' →
     weatherData st' !! k = weatherData st !! k).
Proof.
  intros Hk.
  assert (Hf : ∀ f prevData next,
     fetchWeather cityName net = SetWeatherData f →
     f prevData = Some next →
     next !! k = prevData !! k ∧
     ∃ w fd lst fc,
       axios_get net (weather_url cityName) = Fulfilled w ∧
       axios_get net (forecast_url cityName) = Fulfilled fd ∧
       get fd "list" = Some lst ∧
       js_map forecast_item lst = Some fc ∧
       next !! cityName = Some (mkSnapshot w fc) ∧
       next = <[cityName := mkSnapshot w fc]> prevData).
  { intros f prevData next (w & fd & Hw & Hfd & ->)%fetchWeather_set
      (lst & fc & Hl & Hm & ->)%updater_inv.
    split; [by rewrite lookup_insert_ne|].
    exists w, fd, lst, fc. repeat split; try done. apply lookup_insert_eq. }
  split; [exact Hf|].
  intros st st' (_ & _ & _ & _ & [(m & e & _ & -> & _)|(f & Hfw & Hn & _)])%settle_inv;
    [done|].
  by destruct (Hf f _ _ Hfw Hn).
Qed.

(** C2 (amended): [fetchWeather] hands an update to the store only when
    both requests were answered with a success status, and the entry that
    update writes holds the current-conditions payload as received
    together with the mapped forecast list; when either request is
    rejected (transport failure or a status outside 200..299) the settled
    fetch appends one line to the console log and leaves the store as it
    is. *)
Theorem fetch_all_or_nothing (cityName : string) (net : Network) :
  (∀ f, fetchWeather cityName net = SetWeatherData f →
     ∃ w fd,
       axios_get net (weather_url cityName) = Fulfilled w ∧
       axios_get net (forecast_url cityName) = Fulfilled fd ∧
       ∀ prevData next, f prevData = Some next →
         ∃ lst fc, get fd "list" = Some lst ∧
                   js_map forecast_item lst = Some fc ∧
                   next = <[cityName := mkSnapshot w fc]> prevData) ∧
  ((∃ e, axios_get net (weather_url cityName) = Rejected e) ∨
   (∃ e, axios_get net (forecast_url cityName) = Rejected e) →
   ∀ st, cityName ∈ inflight st →
     ∃ st' error,
       settle cityName net st = Some st' ∧
       weatherData st' = weatherData st ∧
       console st' = console st ++ [("Error fetching the weather data", error)]).
Proof.
  split.
  - intros f (w & fd & Hw & Hfd & ->)%fetchWeather_set.
    exists w, fd. repeat split; [done..|].
    intros prevData next. apply updater_inv.
  - intros [error Herr]%fetchWeather_rejected st Hin.
    unfold settle. rewrite (bool_decide_eq_true_2 _ Hin), Herr.
    eexists _, error. by split.
Qed.

Lemma step_absent_stays_absent (x : string) (st st' : State) (e : Event) :
  step st e = Some st' →
  weatherData st !! x = None →
  ¬ writes x e →
  weatherData st' !! x = None.
Proof.
  intros Hstep Hnone Hw. destruct e as [v| |c|c net]; cbn in Hstep.
  - by injection Hstep as <-.
  - injection Hstep as <-. unfold handleAddCity.
    by destruct (truthy (city st) && _).
  - injection Hstep as <-. cbn.
    destruct (decide (c = x)) as [->|Hne].
    + apply lookup_delete_eq.
    + by rewrite lookup_delete_ne.
  - apply settle_inv in Hstep
      as (_ & _ & _ & _ & [(m & er & _ & -> & _)|(f & Hfw & Hn & _)]); [done|].
    destruct (decide (c = x)) as [->|Hne].
    + exfalso. apply Hw. cbn. split; [done|]. by exists f.
    + apply fetchWeather_set in Hfw as (w & fd & _ & _ & ->).
      apply updater_inv in Hn as (lst & fc & _ & _ & ->).
      by rewrite lookup_insert_ne.
Qed.

Lemma step_in_time_invariant (st st' : State) (e : Event) :
  step st e = Some st' →
  in_time st e = true →
  (∀ k, is_Some (weatherData st !! k) → k ∈ cities st) →
  ∀ k, is_Some (weatherData st' !! k) → k ∈ cities st'.
Proof.
  intros Hstep Ht Hinv k. destruct e as [v| |c|c net]; cbn in Hstep.
  - injection Hstep as <-. apply Hinv.
  - injection Hstep as <-. unfold handleAddCity.
    destruct (truthy (city st) && _); cbn; [|apply Hinv].
    intros Hk. apply elem_of_app. left. by apply Hinv.
  - injection Hstep as <-. cbn. intros Hk.
    destruct (decide (k = c)) as [->|Hne].
    + rewrite lookup_delete_eq in Hk. by destruct Hk.
    + rewrite lookup_delete_ne in Hk by done.
      apply list_elem_of_filter. split; [done|]. by apply Hinv.
  - cbn in Ht. apply bool_decide_eq_true_1 in Ht.
    apply settle_inv in Hstep
      as (_ & _ & -> & _ & [(m & er & _ & -> & _)|(f & Hfw & Hn & _)]); [apply Hinv|].
    apply fetchWeather_set in Hfw as (w & fd & _ & _ & ->).
    apply updater_inv in Hn as (lst & fc & _ & _ & ->).
    destruct (decide (k = c)) as [->|Hne]; [done|].
    rewrite lookup_insert_ne by done. apply Hinv.
Qed.

Lemma run_in_time_invariant (evs : list Event) (st st' : State) :
  run st evs = Some st' →
  all_in_time st evs = true →
  (∀ k, is_Some (weatherData st !! k) → k ∈ cities st) →
  ∀ k, is_Some (weatherData st' !! k) → k ∈ cities st'.
Proof.
  revert st. induction evs as [|e evs IH]; intros st Hrun Ht Hinv; cbn in *.
  - by injection Hrun as <-.
  - destruct (step st e) as [st1|] eqn:Hstep; [|discriminate]. cbn in Hrun.
    apply andb_prop in Ht as [Ht1 Ht2].
    apply (IH st1); [done..|]. by apply (step_in_time_invariant st st1 e).
Qed.

(** C1 (amended): [removeCity x] takes [x] out of the registry and out of
    the store in one update; an absent entry for [x] stays absent through
    every event other than a fetch for [x] settling with an update; and in
    every state reached by events in which each fetch settles while its
    city is in the registry, every key of the store is in the registry. *)
Theorem store_keys_registered (x : string) :
  (∀ st, (x ∉ cities (removeCity x st)) ∧ weatherData (removeCity x st) !! x = None) ∧
  (∀ st st' e,
     step st e = Some st' → weatherData st !! x = None → ¬ writes x e →
     weatherData st' !! x = None) ∧
  (∀ evs st,
     run initial evs = Some st → all_in_time initial evs = true →
     is_Some (weatherData st !! x) → x ∈ cities st).
Proof.
  split; [|split].
  - intros st. cbn. split; [|apply lookup_delete_eq].
    rewrite list_elem_of_filter. by intros [? _].
  - intros st st' e. apply step_absent_stays_absent.
  - intros evs st Hrun Ht. apply (run_in_time_invariant evs initial st Hrun Ht).
    intros k. cbn. rewrite lookup_empty. by intros [? ?].
Qed.

End Store.

(** *** The store on concrete runs *)

Example paris_scenario :
  ∃ st snapshot,
    run initial [InputChange "Paris"; ClickAdd; FetchSettles "Paris" paris_network] = Some st ∧
    weatherData st !! "Paris" = Some snapshot ∧
    (main ← get (current snapshot) "main"; get main "temp") = Some (VNum (183 # 10)) ∧
    length (forecast snapshot) = 2%nat.
Proof.
  eexists _, _. split; [reflexivity|].
  split; [cbn; apply lookup_insert_eq|]. by split.
Qed.

Example atlantis_scenario :
  ∃ st,
    run initial [InputChange "Atlantis"; ClickAdd; FetchSettles "Atlantis" unreachable] = Some st ∧
    weatherData st !! "Atlantis" = None ∧
    cities st = ["Atlantis"] ∧
    console st = [("Error fetching the weather data", ErrNetwork)].
Proof. eexists. split; [reflexivity|]. by split. Qed.

Example updater_throws_without_list :
  updater "Paris" paris_current (VObj [("cod", VStr "200")]) ∅ = None.
Proof. reflexivity. Qed.

Lemma fetch_merge_is_keyed_witness :
  ∃ next fc,
    updater "Paris" paris_current paris_forecast {[ "Oslo" := oslo_snapshot ]} = Some next ∧
    next !! "Oslo" = Some oslo_snapshot ∧
    next !! "Paris" = Some (mkSnapshot paris_current fc) ∧
    length fc = 2%nat.
Proof.
  destruct (fetch_merge_is_keyed "Paris" "Oslo" paris_network) as [Hf _]; [discriminate|].
  assert (Hnext : ∃ next,
    updater "Paris" paris_current paris_forecast {[ "Oslo" := oslo_snapshot ]} = Some next)
    by (eexists; reflexivity).
  destruct Hnext as [next Hnext].
  destruct (Hf _ {[ "Oslo" := oslo_snapshot ]} next eq_refl Hnext)
    as (Ho & w & fd & lst & fc & Hw & Hfd & Hl & Hm & Hp & _).
  assert (Hw' : axios_get paris_network (weather_url "Paris") = Fulfilled paris_current)
    by reflexivity.
  assert (Hfd' : axios_get paris_network (forecast_url "Paris") = Fulfilled paris_forecast)
    by reflexivity.
  rewrite Hw' in Hw. injection Hw as <-.
  rewrite Hfd' in Hfd. injection Hfd as <-.
  injection Hl as <-.
  exists next, fc. split; [exact Hnext|]. split; [|split; [exact Hp|]].
  - rewrite Ho. apply lookup_singleton_eq.
  - injection Hm as <-. reflexivity.
Defined.

Lemma fetch_all_or_nothing_witness :
  (∃ st' error,
     settle "Atlantis" unreachable (addCity "Atlantis" initial) = Some st' ∧
     weatherData st' = ∅ ∧
     console st' = [("Error fetching the weather data", error)]) ∧
  (∃ w fd,
     axios_get paris_network (weather_url "Paris") = Fulfilled w ∧
     axios_get paris_network (forecast_url "Paris") = Fulfilled fd).
Proof.
  destruct (fetch_all_or_nothing "Atlantis" unreachable) as [_ Hrej].
  destruct (fetch_all_or_nothing "Paris" paris_network) as [Hset _].
  split.
  - destruct (Hrej (or_introl (ex_intro _ ErrNetwork eq_refl))
                   (addCity "Atlantis" initial))
      as (st' & error & Hs & Hw & Hc).
    + vm_compute. apply list_elem_of_here.
    + exists st', error. split; [exact Hs|]. split; [exact Hw | exact Hc].
  - destruct (Hset _ eq_refl) as (w & fd & Hw & Hfd & _).
    exists w, fd. split; [exact Hw | exact Hfd].
Defined.

(** C2, as stated for a malformed payload: a current-conditions answer
    that carries none of the expected fields (here [null]) is stored all
    the same, next to the forecast. *)
Lemma malformed_current_is_stored :
  ¬ (∀ (cityName : string) (net : Network) (st st' : State) (w : value),
       axios_get net (weather_url cityName) = Fulfilled w →
       current_well_formed w = false →
       settle cityName net st = Some st' →
       weatherData st' = weatherData st).
Proof.
  intros H.
  assert (∃ fc, settle "Paris" (provider "Paris" VNull paris_forecast)
                       (addCity "Paris" initial)
                = Some (mkState "" ["Paris"] (<["Paris" := mkSnapshot VNull fc]> ∅) [] []))
    as [fc Hs] by (eexists; reflexivity).
  specialize (H "Paris" (provider "Paris" VNull paris_forecast) _ _ VNull
                eq_refl eq_refl Hs).
  apply (f_equal (fun m => m !! "Paris")) in H.
  change (weatherData (addCity "Paris" initial)) with (∅ : gmap string Snapshot) in H.
  cbn [weatherData] in H. rewrite lookup_insert_eq, lookup_empty in H. discriminate H.
Qed.

(** C1, as stated: a fetch started before the removal and settling after
    it puts the removed city back into the store. *)
Lemma stale_fetch_writes_after_removal :
  ¬ (∀ (evs : list Event) (st : State) (k : string),
       run initial evs = Some st →
       is_Some (weatherData st !! k) → k ∈ cities st).
Proof.
  intros H.
  specialize (H [InputChange "Paris"; ClickAdd; ClickDelete "Paris";
                 FetchSettles "Paris" paris_network] _ "Paris" eq_refl).
  cbn in H. rewrite lookup_insert_eq in H.
  apply (elem_of_nil "Paris"). apply H. by eexists.
Qed.

Lemma store_keys_registered_witness :
  ∃ st,
    run initial [InputChange "Paris"; ClickAdd; FetchSettles "Paris" paris_network] = Some st ∧
    "Paris" ∈ cities st ∧
    weatherData (removeCity "Paris" st) !! "Paris" = None ∧
    weatherData (handleAddCity (removeCity "Paris" st)) !! "Paris" = None.
Proof.
  destruct (store_keys_registered "Paris") as (Hrm & Hstay & Hinv).
  eexists. split; [reflexivity|]. split; [|split].
  - apply (Hinv [InputChange "Paris"; ClickAdd; FetchSettles "Paris" paris_network]).
    + reflexivity.
    + reflexivity.
    + cbn. rewrite lookup_insert_eq. by eexists.
  - apply Hrm.
  - apply (Hstay (removeCity "Paris" _) _ ClickAdd eq_refl).
    + apply Hrm.
    + intros Hw. exact Hw.
Defined.

(** ** Forecast cards and chart data *)

Example entries_index_keys_first :
  Object_entries [("b", 1); ("10", 2); ("a", 3); ("9", 4)]
  = [("9", 4); ("10", 2); ("b", 1); ("a", 3)].
Proof. reflexivity. Qed.

Lemma keep_first_snoc (l : list string) (x : string) :
  keep_first (l ++ [x]) = if decide (x ∈ l) then keep_first l else keep_first l ++ [x].
Proof.
  induction l as [|y l IH]; [done|].
  cbn [app keep_first]. rewrite IH.
  destruct (decide (x ∈ l)) as [Hin|Hnin].
  - rewrite decide_True by (by right). done.
  - rewrite filter_app, filter_cons, filter_nil.
    destruct (decide (x ≠ y)) as [Hne|Heq];
      destruct (decide (x ∈ y :: l)) as [Hin'|Hnin'].
    + apply elem_of_cons in Hin' as [?|?]; done.
    + done.
    + by rewrite app_nil_r.
    + exfalso. apply Hnin'. apply dec_stable in Heq as ->. left.
Qed.

Lemma In_keep_first (x : string) (l : list string) : In x (keep_first l) ↔ x ∈ l.
Proof. by rewrite <- list_elem_of_In, elem_of_keep_first. Qed.

Lemma length_keep_first (l : list string) :
  length (keep_first l) = size (list_to_set l : gset string).
Proof.
  rewrite <- (size_list_to_set (C := gset string) (keep_first l))
    by apply NoDup_keep_first.
  f_equal. apply set_eq. intros x.
  by rewrite !elem_of_list_to_set, elem_of_keep_first.
Qed.

Lemma map_lookup {A B : Type} (f : A → B) (l : list A) (i : nat) :
  map f l !! i = f <$> l !! i.
Proof. revert i. induction l as [|x l IH]; intros [|i]; cbn; auto. Qed.

Section Mapped.
Context {A : Type} (g : string → A).

Lemma assoc_mapped (ks : list string) (d : string) :
  assoc d (map (fun k => (k, g k)) ks) = if decide (d ∈ ks) then Some (g d) else None.
Proof.
  induction ks as [|k ks IH]; cbn [map assoc].
  - by rewrite decide_False by apply not_elem_of_nil.
  - destruct (String.eqb_spec d k) as [->|Hne].
    + by rewrite decide_True by (by left).
    + rewrite IH. destruct (decide (d ∈ ks)) as [Hin|Hnin].
      * by rewrite decide_True by (by right).
      * rewrite decide_False; [done|]. intros [?|?]%elem_of_cons; done.
Qed.

Lemma obj_set_mapped_in (ks : list string) (d : string) (v : A) :
  NoDup ks → d ∈ ks →
  obj_set (map (fun k => (k, g k)) ks) d v =
  map (fun k => (k, if decide (k = d) then v else g k)) ks.
Proof.
  induction 1 as [|k ks Hk Hnd IH]; intros Hin; [by apply elem_of_nil in Hin|].
  cbn [map obj_set]. destruct (String.eqb_spec d k) as [->|Hne].
  - rewrite decide_True by done. f_equal.
    apply map_ext_in. intros k' Hk'%list_elem_of_In.
    rewrite decide_False; [done|]. by intros ->.
  - rewrite decide_False by done. f_equal. apply IH.
    apply elem_of_cons in Hin as [?|?]; done.
Qed.

Lemma obj_set_mapped_notin (ks : list string) (d : string) (v : A) :
  d ∉ ks →
  obj_set (map (fun k => (k, g k)) ks) d v = map (fun k => (k, g k)) ks ++ [(d, v)].
Proof.
  induction ks as [|k ks IH]; intros Hnin; [done|].
  cbn [map obj_set app]. apply not_elem_of_cons in Hnin as [Hne Hnin].
  destruct (String.eqb_spec d k) as [->|_]; [done|].
  by rewrite IH.
Qed.

End Mapped.

Lemma Object_entries_ordinary {A : Type} (o : JsObject A) :
  (∀ e, e ∈ o → array_index e.1 = None) → Object_entries o = o.
Proof.
  intros H. unfold Object_entries.
  assert (Hom : omap (fun e : string * A => n ← array_index e.1; Some (n, e)) o = []).
  { induction o as [|e o IH]; [done|]. cbn [omap list_omap].
    rewrite (H e) by left. cbn. apply IH. intros e' He'. apply H. by right. }
  rewrite Hom. cbn. by apply filter_all.
Qed.

Section Cards.
Context `{RT : Runtime}.

Lemma group_step_groups_of (l : list ForecastPoint) (p : ForecastPoint) :
  day_of p ∉ Object_prototype_names →
  group_step (groups_of l) p = Some (groups_of (l ++ [p])).
Proof.
  intros Hproto. unfold group_step, obj_get, groups_of. cbv zeta.
  rewrite assoc_mapped, map_app. cbn [map]. rewrite keep_first_snoc.
  destruct (decide (day_of p ∈ map day_of l)) as [Hin|Hnin].
  - rewrite decide_True by (by apply elem_of_keep_first).
    f_equal. rewrite obj_set_mapped_in;
      [|apply NoDup_keep_first|by apply elem_of_keep_first].
    apply map_ext. intros d. f_equal.
    rewrite filter_app, filter_cons, filter_nil.
    destruct (decide (d = day_of p)) as [->|Hne].
    + by rewrite decide_True by done.
    + rewrite decide_False by (intros E; by apply Hne). by rewrite app_nil_r.
  - rewrite decide_False by (by rewrite elem_of_keep_first).
    rewrite bool_decide_eq_false_2 by done. f_equal.
    rewrite obj_set_mapped_notin by (by rewrite elem_of_keep_first).
    rewrite map_app. cbn [map]. f_equal.
    + apply map_ext_in. intros d Hd. apply (proj1 (In_keep_first _ _)) in Hd. f_equal.
      rewrite filter_app, filter_cons, filter_nil.
      rewrite decide_False by (intros E; apply Hnin; by rewrite E).
      by rewrite app_nil_r.
    + f_equal. f_equal. rewrite filter_app, filter_cons, filter_nil.
      rewrite decide_True by done.
      assert (Hnone : filter (fun p0 => day_of p0 = day_of p) l = []).
      { clear -Hnin. induction l as [|q l IH]; [done|].
        cbn [map] in Hnin. apply not_elem_of_cons in Hnin as [Hne Hnin].
        rewrite filter_cons_False by (intros E; by apply Hne). by apply IH. }
      by rewrite Hnone.
Qed.

Lemma reduce_groups_of (l1 l2 : list ForecastPoint) :
  Forall (fun p => ordinary_key (day_of p) = true) l2 →
  reduce group_step (groups_of l1) l2 = Some (groups_of (l1 ++ l2)).
Proof.
  revert l1. induction l2 as [|p l2 IH]; intros l1 Hall; cbn [reduce].
  - by rewrite app_nil_r.
  - apply Forall_cons in Hall as [Hp Hall].
    apply andb_prop in Hp as [_ Hp]. apply negb_true_iff, bool_decide_eq_false_1 in Hp.
    rewrite group_step_groups_of by done. cbn.
    rewrite IH by done. by rewrite <- app_assoc.
Qed.

(** C8: the cards group the forecast by calendar day: the groups are the
    days in the order of their first occurrence, the group of a day holds
    exactly the points of that day in input order, and there are as many
    groups as there are distinct days, two for a forecast spanning two
    days.  The date keys are assumed to be ordinary keys. *)
Theorem forecastCards_by_day (forecast : list ForecastPoint) :
  Forall (fun p => ordinary_key (day_of p) = true) forecast →
  forecastCards forecast = Some (groups_of forecast) ∧
  (groups_of forecast).*1 = keep_first (map day_of forecast) ∧
  (∀ d items, (d, items) ∈ groups_of forecast →
     items = filter (fun p => day_of p = d) forecast ∧ items ≠ []) ∧
  (∀ p, p ∈ forecast →
     (day_of p, filter (fun q => day_of q = day_of p) forecast) ∈ groups_of forecast) ∧
  length (groups_of forecast) = size (list_to_set (map day_of forecast) : gset string) ∧
  (∀ d1 d2, d1 ≠ d2 →
     (list_to_set (map day_of forecast) : gset string) = {[ d1; d2 ]} →
     length (groups_of forecast) = 2%nat).
Proof.
  intros Hall.
  assert (Hlen : length (groups_of forecast)
                 = size (list_to_set (map day_of forecast) : gset string)).
  { unfold groups_of. by rewrite length_map, length_keep_first. }
  split; [|split; [|split; [|split; [|split]]]].
  - unfold forecastCards, groupedForecast.
    change (@nil (string * list ForecastPoint)) with (groups_of []).
    rewrite reduce_groups_of by done. cbn [app fmap option_fmap option_map].
    f_equal. apply Object_entries_ordinary.
    intros [d items] Hin. cbn.
    unfold groups_of in Hin. apply list_elem_of_In, in_map_iff in Hin as (d' & [= <- _] & Hd).
    apply (proj1 (In_keep_first _ _)), list_elem_of_In, in_map_iff in Hd
      as (p & <- & Hp).
    apply list_elem_of_In in Hp.
    pose proof (proj1 (Forall_forall _ _) Hall p Hp) as Ho.
    apply andb_prop in Ho as [Ho _]. by apply bool_decide_eq_true_1 in Ho.
  - unfold groups_of. rewrite <- list_fmap_compose.
    induction (keep_first (map day_of forecast)) as [|d ds IH]; [done|].
    cbn. by rewrite IH.
  - intros d items Hin. unfold groups_of in Hin.
    apply list_elem_of_In, in_map_iff in Hin as (d' & [= -> <-] & Hd).
    split; [done|].
    apply (proj1 (In_keep_first _ _)), list_elem_of_In, in_map_iff in Hd
      as (p & Hday & Hp).
    intros Hnil. apply list_elem_of_In in Hp.
    assert (Hf : p ∈ filter (fun p0 => day_of p0 = d) forecast)
      by (by apply list_elem_of_filter).
    rewrite Hnil in Hf. by apply elem_of_nil in Hf.
  - intros p Hp. unfold groups_of.
    apply list_elem_of_In, in_map_iff. exists (day_of p). split; [done|].
    apply In_keep_first, list_elem_of_In, in_map. by apply list_elem_of_In.
  - exact Hlen.
  - intros d1 d2 Hne Hdays. rewrite Hlen, Hdays.
    rewrite size_union by set_solver. by rewrite !size_singleton.
Qed.

(** C9: the chart data has one label per forecast point, its time of day,
    and exactly three series, temperature, humidity and wind speed; labels
    and series have the length of the forecast and their i-th entries come
    from the i-th point; the empty forecast gives empty labels and three
    empty series. *)
Theorem generateChartData_aligned (forecast : list ForecastPoint) :
  length (labels (generateChartData forecast)) = length forecast ∧
  (∀ i, labels (generateChartData forecast) !! i
        = (fun p => toLocaleTimeString (date p)) <$> forecast !! i) ∧
  (∃ t h w,
     datasets (generateChartData forecast) = [t; h; w] ∧
     label t = "Temperature (°C)" ∧ label h = "Humidity (%)" ∧
     label w = "Wind Speed (m/s)" ∧
     length (data t) = length forecast ∧
     length (data h) = length forecast ∧
     length (data w) = length forecast ∧
     ∀ i, data t !! i = temp <$> forecast !! i ∧
          data h !! i = humidity <$> forecast !! i ∧
          data w !! i = wind_speed <$> forecast !! i) ∧
  labels (generateChartData []) = [] ∧
  map data (datasets (generateChartData [])) = [[]; []; []].
Proof.
  split; [cbn; apply length_map|].
  split; [intros i; cbn; apply map_lookup|].
  split; [|by split].
  eexists _, _, _. split; [reflexivity|]. cbn.
  rewrite !length_map. repeat split; apply map_lookup.
Qed.

End Cards.

Lemma forecastCards_by_day_witness :
  ∃ p1 p2 p3,
    three_points = [p1; p2; p3] ∧
    forecastCards three_points
    = Some [("11/15/2023", [p1; p3]); ("11/16/2023", [p2])].
Proof.
  destruct (forecastCards_by_day three_points) as (Hcards & _).
  - unfold three_points. repeat constructor.
  - eexists _, _, _. split; [reflexivity|].
    rewrite Hcards. reflexivity.
Defined.

Example chart_three_points :
  labels (generateChartData three_points) = ["00:00"; "00:00"; "03:00"] ∧
  map data (datasets (generateChartData three_points))
  = [ [VNum (175 # 10); VNum (12 # 1); VNum (161 # 10)];
      [VNum (62 # 1); VNum (80 # 1); VNum (70 # 1)];
      [VNum (4 # 1); VNum (2 # 1); VNum (35 # 10)] ].
Proof. by split. Qed.

(** * Further properties of the component *)

(** ** The click handlers (lines 116-130) *)

Section Handlers.
Context `{RT : Runtime}.

Lemma State_eq (st st' : State) :
  city st = city st' → cities st = cities st' → weatherData st = weatherData st' →
  inflight st = inflight st' → console st = console st' → st = st'.
Proof. destruct st, st'; cbn; by intros -> -> -> -> ->. Qed.

(** X1: deleting a city that is neither in the registry nor in the store
    changes nothing. *)
Theorem handleDeleteCity_absent (cityName : string) (st : State) :
  cityName ∉ cities st → weatherData st !! cityName = None →
  handleDeleteCity cityName st = st.
Proof.
  intros Hnin Hnone. apply State_eq; cbn; try done.
  - apply filter_all. intros x Hx ->. done.
  - by apply delete_id.
Qed.

(** X2: deleting a city keeps every other city, in the same relative
    order, with its store entry; it does not touch the input box or the
    log and stops no running fetch. *)
Theorem handleDeleteCity_frame (cityName : string) (st : State) :
  cities (handleDeleteCity cityName st) `sublist_of` cities st ∧
  (∀ k, k ≠ cityName →
     (k ∈ cities (handleDeleteCity cityName st) ↔ k ∈ cities st) ∧
     weatherData (handleDeleteCity cityName st) !! k = weatherData st !! k) ∧
  inflight (handleDeleteCity cityName st) = inflight st ∧
  city (handleDeleteCity cityName st) = city st ∧
  console (handleDeleteCity cityName st) = console st.
Proof.
  cbn. split; [apply sublist_filter|]. split; [|done].
  intros k Hk. split.
  - rewrite list_elem_of_filter. tauto.
  - by apply lookup_delete_ne.
Qed.

(** X3: deleting the same city twice is the same as deleting it once, and
    two deletions give the same state in either order. *)
Theorem handleDeleteCity_idempotent_commutes (a b : string) (st : State) :
  handleDeleteCity a (handleDeleteCity a st) = handleDeleteCity a st ∧
  handleDeleteCity a (handleDeleteCity b st) = handleDeleteCity b (handleDeleteCity a st).
Proof.
  split; apply State_eq; cbn; try done.
  - rewrite list_filter_filter. apply list_filter_iff. intros x. tauto.
  - apply delete_delete_eq.
  - rewrite !list_filter_filter. apply list_filter_iff. intros x. tauto.
  - apply delete_delete.
Qed.

(** X4: adding a new city and deleting it again restores the registry and
    the store, but the fetch that the add started is still running and the
    input box has been cleared. *)
Theorem addCity_then_removeCity (name : string) (st : State) :
  name ≠ "" → name ∉ cities st → weatherData st !! name = None →
  removeCity name (addCity name st) =
    mkState "" (cities st) (weatherData st) (inflight st ++ [name]) (console st).
Proof.
  intros Hne Hnin Hnone. rewrite addCity_append by done.
  apply State_eq; cbn; try done.
  - rewrite filter_app, filter_cons_False, filter_nil, app_nil_r by (intros H; by apply H).
    apply filter_all. intros x Hx ->. done.
  - by apply delete_id.
Qed.

(** X5: deleting a city and adding it again puts it at the end of the
    registry, whether or not it was there before, clears its store entry
    and starts one fetch. *)
Theorem removeCity_then_addCity (name : string) (st : State) :
  name ≠ "" →
  cities (addCity name (removeCity name st))
    = filter (fun c => c ≠ name) (cities st) ++ [name] ∧
  weatherData (addCity name (removeCity name st)) !! name = None ∧
  inflight (addCity name (removeCity name st)) = inflight st ++ [name].
Proof.
  intros Hne. rewrite addCity_append; [|done|].
  - cbn. split; [done|]. split; [apply lookup_delete_eq | done].
  - cbn. rewrite list_elem_of_filter. by intros [? _].
Qed.

(** X6: pressing the add button twice in a row has the effect of pressing
    it once; after the button is pressed the input box is empty or holds a
    name that was already in the registry. *)
Theorem handleAddCity_idempotent (st : State) :
  handleAddCity (handleAddCity st) = handleAddCity st ∧
  (city (handleAddCity st) = "" ∨ city (handleAddCity st) ∈ cities st).
Proof.
  unfold handleAddCity.
  destruct (truthy (city st)) eqn:Ht; cbn [andb]; [|split; [by rewrite Ht|]].
  - case_bool_decide as Hin; cbn [negb].
    + rewrite Ht. rewrite bool_decide_eq_true_2 by done. cbn. split; [done|by right].
    + cbn. split; [done|by left].
  - left. by destruct (city st).
Qed.

End Handlers.

Lemma handleDeleteCity_absent_witness :
  handleDeleteCity "Rome" (addCity "Oslo" initial) = addCity "Oslo" initial.
Proof.
  apply (handleDeleteCity_absent "Rome" (addCity "Oslo" initial)).
  - cbn. intros H. apply list_elem_of_singleton in H. discriminate H.
  - apply lookup_empty.
Defined.

Lemma addCity_then_removeCity_witness :
  removeCity "Oslo" (addCity "Oslo" initial) = mkState "" [] ∅ ["Oslo"] [].
Proof.
  apply (addCity_then_removeCity "Oslo" initial).
  - discriminate.
  - apply not_elem_of_nil.
  - apply lookup_empty.
Defined.

Lemma removeCity_then_addCity_witness :
  cities (addCity "Oslo" (removeCity "Oslo" (addCity "Rome" (addCity "Oslo" initial))))
  = ["Rome"; "Oslo"].
Proof.
  destruct (removeCity_then_addCity "Oslo" (addCity "Rome" (addCity "Oslo" initial)))
    as [Hc _]; [discriminate|].
  exact Hc.
Defined.

(** ** States reached from the initial state *)

Lemma elem_of_remove_first (x c : string) (l : list string) :
  x ∈ remove_first c l → x ∈ l.
Proof.
  induction l as [|y l IH]; cbn; [done|].
  destruct (String.eqb_spec c y) as [->|_].
  - by right.
  - intros [->|Hx]%elem_of_cons; [left|right; by apply IH].
Qed.


Section Reachable.
Context `{RT : Runtime}.

Lemma run_app (st : State) (evs1 evs2 : list Event) :
  run st (evs1 ++ evs2) = st' ← run st evs1; run st' evs2.
Proof.
  revert st. induction evs1 as [|e evs1 IH]; intros st; cbn; [done|].
  destruct (step st e) as [st1|]; cbn; [apply IH | done].
Qed.

Lemma run_snoc_inv (st st' : State) (evs : list Event) (e : Event) :
  run st (evs ++ [e]) = Some st' →
  ∃ st1, run st evs = Some st1 ∧ step st1 e = Some st'.
Proof.
  rewrite run_app. destruct (run st evs) as [st1|]; cbn; [|discriminate].
  destruct (step st1 e) as [st2|] eqn:Hstep; cbn; [|discriminate].
  intros [= <-]. by exists st1.
Qed.

Lemma reachable_ind (P : list Event → State → Prop) :
  P [] initial →
  (∀ evs st e st',
     run initial evs = Some st → P evs st → step st e = Some st' → P (evs ++ [e]) st') →
  ∀ evs st, run initial evs = Some st → P evs st.
Proof.
  intros Hinit Hstep evs. induction evs as [|e evs IH] using rev_ind; intros st Hrun.
  - cbn in Hrun. by injection Hrun as <-.
  - apply run_snoc_inv in Hrun as (st1 & Hrun & Hst). eauto.
Qed.

(** X7: in every state reached from the initial state the registry has no
    duplicates, and the empty name is neither in the registry, nor being
    fetched, nor a key of the store. *)
Theorem reachable_names_wellformed (evs : list Event) (st : State) :
  run initial evs = Some st →
  NoDup (cities st) ∧ ("" ∉ cities st) ∧ ("" ∉ inflight st) ∧
  weatherData st !! "" = None.
Proof.
  revert evs st.
  apply (reachable_ind (fun _ st =>
    NoDup (cities st) ∧ ("" ∉ cities st) ∧ ("" ∉ inflight st) ∧
    weatherData st !! "" = None)).
  { cbn. split; [constructor|]. split; [apply not_elem_of_nil|].
    split; [apply not_elem_of_nil | apply lookup_empty]. }
  intros _ st e st' _ (Hnd & Hc & Hi & Hw) Hstep.
  destruct e as [v| |c|c net]; cbn in Hstep.
  - by injection Hstep as <-.
  - injection Hstep as <-. unfold handleAddCity.
    destruct (truthy (city st)) eqn:Ht; cbn [andb]; [|done].
    case_bool_decide as Hin; cbn [negb]; [done|]. cbn.
    apply truthy_true in Ht.
    split; [|split; [|split; [|done]]].
    + apply NoDup_app. split; [done|]. split; [|apply NoDup_singleton].
      intros x Hx ->%list_elem_of_singleton. done.
    + rewrite elem_of_app, list_elem_of_singleton. intros [?|?]; [done|]. by apply Ht.
    + rewrite elem_of_app, list_elem_of_singleton. intros [?|?]; [done|]. by apply Ht.
  - injection Hstep as <-. cbn.
    split; [by apply NoDup_filter|]. split; [|split; [done|]].
    + rewrite list_elem_of_filter. by intros [_ ?].
    + destruct (decide (c = "")) as [->|Hne]; [apply lookup_delete_eq|].
      by rewrite lookup_delete_ne.
  - apply settle_inv in Hstep
      as (Hin & _ & -> & -> & [(m & er & _ & -> & _)|(f & Hfw & Hn & _)]).
    + split; [done|]. split; [done|]. split; [|done].
      intros Hx. apply Hi. by apply elem_of_remove_first in Hx.
    + split; [done|]. split; [done|]. split.
      { intros Hx. apply Hi. by apply elem_of_remove_first in Hx. }
      apply fetchWeather_set in Hfw as (w & fd & _ & _ & ->).
      apply updater_inv in Hn as (lst & fc & _ & _ & ->).
      rewrite lookup_insert_ne; [done|]. intros E. apply Hi. by rewrite <- E.
Qed.

(** X8: a key of the store is always a name the user typed and added, for
    which a fetch settled with an update; nothing is ever stored for a
    name that was not entered. *)
Theorem store_key_provenance (evs : list Event) (st : State) (k : string) :
  run initial evs = Some st →
  is_Some (weatherData st !! k) →
  InputChange k ∈ evs ∧ ClickAdd ∈ evs ∧
  ∃ net f, FetchSettles k net ∈ evs ∧ fetchWeather k net = SetWeatherData f.
Proof.
  intros Hrun. revert k.
  enough (Hall :
    (city st = "" ∨ InputChange (city st) ∈ evs) ∧
    (∀ k, k ∈ inflight st → InputChange k ∈ evs ∧ ClickAdd ∈ evs) ∧
    (∀ k, is_Some (weatherData st !! k) →
       InputChange k ∈ evs ∧ ClickAdd ∈ evs ∧
       ∃ net f, FetchSettles k net ∈ evs ∧ fetchWeather k net = SetWeatherData f))
    by apply Hall.
  revert evs st Hrun.
  apply (reachable_ind (fun evs st =>
    (city st = "" ∨ InputChange (city st) ∈ evs) ∧
    (∀ k, k ∈ inflight st → InputChange k ∈ evs ∧ ClickAdd ∈ evs) ∧
    (∀ k, is_Some (weatherData st !! k) →
       InputChange k ∈ evs ∧ ClickAdd ∈ evs ∧
       ∃ net f, FetchSettles k net ∈ evs ∧ fetchWeather k net = SetWeatherData f))).
  { cbn. split; [by left|]. split.
    - intros k Hk. by apply elem_of_nil in Hk.
    - intros k. rewrite lookup_empty. by intros [? ?]. }
  intros evs st e st' _ (Hcity & Hfl & Hst) Hstep.
  assert (Hmono : ∀ x : Event, x ∈ evs → x ∈ evs ++ [e])
    by (intros x Hx; apply elem_of_app; by left).
  assert (Hlast : e ∈ evs ++ [e])
    by (apply elem_of_app; right; apply list_elem_of_singleton; done).
  assert (Hfl' : ∀ k, k ∈ inflight st → InputChange k ∈ evs ++ [e] ∧ ClickAdd ∈ evs ++ [e]).
  { intros k Hk. destruct (Hfl k Hk). split; by apply Hmono. }
  assert (Hst' : ∀ k, is_Some (weatherData st !! k) →
       InputChange k ∈ evs ++ [e] ∧ ClickAdd ∈ evs ++ [e] ∧
       ∃ net f, FetchSettles k net ∈ evs ++ [e] ∧ fetchWeather k net = SetWeatherData f).
  { intros k Hk. destruct (Hst k Hk) as (H1 & H2 & net & f & H3 & H4).
    split; [by apply Hmono|]. split; [by apply Hmono|].
    exists net, f. split; [by apply Hmono | done]. }
  destruct e as [v| |c|c net]; cbn in Hstep.
  - injection Hstep as <-. cbn. split; [by right|]. by split.
  - injection Hstep as <-. unfold handleAddCity.
    destruct (truthy (city st)) eqn:Ht; cbn [andb].
    + case_bool_decide as Hin; cbn [negb].
      * split; [|by split]. destruct Hcity as [?|?]; [by left | right; by apply Hmono].
      * cbn. split; [by left|]. split; [|done].
        intros k [Hk|Hk]%elem_of_app; [by apply Hfl'|].
        apply list_elem_of_singleton in Hk as ->.
        split; [|done]. apply truthy_true in Ht.
        destruct Hcity as [?|?]; [done | by apply Hmono].
    + split; [|by split]. destruct Hcity as [?|?]; [by left | right; by apply Hmono].
  - injection Hstep as <-. cbn.
    split; [destruct Hcity as [?|?]; [by left | right; by apply Hmono]|].
    split; [done|]. intros k Hk. apply Hst'.
    destruct (decide (c = k)) as [->|Hne].
    + rewrite lookup_delete_eq in Hk. by destruct Hk.
    + by rewrite lookup_delete_ne in Hk.
  - apply settle_inv in Hstep
      as (Hin & -> & _ & -> & [(m & er & _ & -> & _)|(f & Hfw & Hn & _)]).
    + split; [destruct Hcity as [?|?]; [by left | right; by apply Hmono]|].
      split; [|done]. intros k Hk. apply Hfl'. by apply elem_of_remove_first in Hk.
    + split; [destruct Hcity as [?|?]; [by left | right; by apply Hmono]|].
      split; [intros k Hk; apply Hfl'; by apply elem_of_remove_first in Hk|].
      intros k Hk. destruct (decide (k = c)) as [->|Hne].
      * destruct (Hfl' c Hin) as [H1 H2]. split; [done|]. split; [done|].
        by exists net, f.
      * apply Hst'.
        pose proof Hfw as Hfw'.
        apply fetchWeather_set in Hfw' as (w & fd & _ & _ & ->).
        apply updater_inv in Hn as (lst & fc & _ & _ & Heq).
        rewrite Heq in Hk. by rewrite lookup_insert_ne in Hk.
Qed.

End Reachable.

Lemma reachable_names_wellformed_witness :
  ∃ st,
    run initial [InputChange "Paris"; ClickAdd; InputChange ""; ClickAdd;
                 InputChange "Paris"; ClickAdd] = Some st ∧
    cities st = ["Paris"] ∧ NoDup (cities st) ∧ ("" ∉ cities st).
Proof.
  eexists. split; [reflexivity|]. split; [reflexivity|].
  edestruct (reachable_names_wellformed
               [InputChange "Paris"; ClickAdd; InputChange ""; ClickAdd;
                InputChange "Paris"; ClickAdd]) as (Hnd & Hc & _).
  - reflexivity.
  - split; [exact Hnd | exact Hc].
Defined.

Lemma store_key_provenance_witness :
  InputChange "Paris" ∈ [InputChange "Paris"; ClickAdd; FetchSettles "Paris" paris_network] ∧
  ClickAdd ∈ [InputChange "Paris"; ClickAdd; FetchSettles "Paris" paris_network].
Proof.
  assert (Hrun : ∃ st,
    run initial [InputChange "Paris"; ClickAdd; FetchSettles "Paris" paris_network]
      = Some st ∧ is_Some (weatherData st !! "Paris")).
  { eexists. split; [reflexivity|]. cbn. rewrite lookup_insert_eq. by eexists. }
  destruct Hrun as (st & Hrun & Hsome).
  destruct (store_key_provenance _ st "Paris" Hrun Hsome) as (Ht & Ha & _).
  split; [exact Ht | exact Ha].
Defined.

(** ** The fetch (lines 91-114) *)

Lemma get_nullish (v : value) (k : string) :
  get v k = if nullish v then None else Some (prop v k).
Proof. by destruct v. Qed.

Lemma get0_nullish (v : value) :
  get0 v = if nullish v then None else Some (prop0 v).
Proof. destruct v as [| | | |s| |]; try done. by destruct s. Qed.

Section Fetch.
Context `{RT : Runtime}.

(** The forecast point the callback builds from an entry it can read. *)
Lemma forecast_item_eq (item : value) :
  forecast_item item =
    if item_readable item then
      Some (mkForecastPoint
              (new_Date (prop item "dt"))
              (prop (prop item "main") "temp")
              (prop (prop item "main") "feels_like")
              (prop (prop item "main") "humidity")
              (prop (prop item "wind") "speed")
              (prop (prop0 (prop item "weather")) "description")
              (prop (prop0 (prop item "weather")) "icon"))
    else None.
Proof.
  unfold forecast_item, item_readable. rewrite ?get_nullish.
  destruct (nullish item); [done|]. cbn.
  destruct (ToNumber_throws (prop item "dt")); [done|]. cbn.
  rewrite ?get_nullish. destruct (nullish (prop item "main")); [done|]. cbn.
  rewrite ?get_nullish. destruct (nullish (prop item "wind")); [done|]. cbn.
  rewrite ?get0_nullish. destruct (nullish (prop item "weather")); [done|]. cbn.
  rewrite ?get_nullish. by destruct (nullish (prop0 (prop item "weather"))).
Qed.

(** X9: the mapping callback throws exactly on an entry that is
    [null]/[undefined], or whose [main], [wind], [weather] or [weather[0]]
    is, or whose [dt] has no conversion to a number (an object with an own
    [toString], or an array holding one); on any other entry it copies
    [main.temp], [main.feels_like], [main.humidity], [wind.speed],
    [weather[0].description] and [weather[0].icon] unchanged, a missing one
    as [undefined]. *)
Theorem forecast_item_reads (item : value) :
  (forecast_item item = None ↔ item_readable item = false) ∧
  (∀ p, forecast_item item = Some p →
     date p = new_Date (prop item "dt") ∧
     temp p = prop (prop item "main") "temp" ∧
     feels_like p = prop (prop item "main") "feels_like" ∧
     humidity p = prop (prop item "main") "humidity" ∧
     wind_speed p = prop (prop item "wind") "speed" ∧
     description p = prop (prop0 (prop item "weather")) "description" ∧
     icon p = prop (prop0 (prop item "weather")) "icon").
Proof.
  rewrite forecast_item_eq. destruct (item_readable item); split.
  - split; discriminate.
  - by intros p [= <-].
  - done.
  - discriminate.
Qed.

Lemma updater_eq (cityName : string) (w fd : value) (prevData : gmap string Snapshot) :
  updater cityName w fd prevData =
    (fun fc => <[cityName := mkSnapshot w fc]> prevData)
      <$> (get fd "list" ≫= js_map forecast_item).
Proof.
  unfold updater. destruct (get fd "list") as [lst|]; cbn; [|done].
  by destruct (js_map forecast_item lst).
Qed.

(** X10: the update of a fetch goes through exactly when the forecast
    payload has a [list] that is an array of entries the callback can read
    ([item_readable], which includes that [dt] converts to a number),
    whatever the store holds and whatever the current-conditions payload
    is. *)
Theorem updater_succeeds_iff (cityName : string) (w fd : value)
    (prevData : gmap string Snapshot) :
  is_Some (updater cityName w fd prevData) ↔
  ∃ items, get fd "list" = Some (VArr items) ∧
           Forall (fun item => item_readable item = true) items.
Proof.
  rewrite updater_eq, fmap_is_Some. split.
  - intros [fc Hfc]. destruct (get fd "list") as [lst|]; [|discriminate]. cbn in Hfc.
    destruct lst as [| | | | |items|]; try discriminate. cbn in Hfc.
    exists items. split; [done|].
    assert (Hs : is_Some (mapM forecast_item items)) by (by exists fc).
    apply mapM_is_Some in Hs. eapply Forall_impl; [exact Hs|].
    intros item [p Hp]. cbn in Hp. rewrite forecast_item_eq in Hp.
    by destruct (item_readable item).
  - intros (items & -> & Hall). cbn. apply mapM_is_Some.
    eapply Forall_impl; [exact Hall|]. intros item Hr. cbn.
    rewrite forecast_item_eq, Hr. by eexists.
Qed.

(** X11: the stored forecast has one point per entry of the provider's
    list, in the provider's order: the i-th point is built from the i-th
    entry. *)
Theorem updater_keeps_provider_order (cityName : string) (w fd : value)
    (prevData next : gmap string Snapshot) :
  updater cityName w fd prevData = Some next →
  ∃ items fc,
    get fd "list" = Some (VArr items) ∧
    next !! cityName = Some (mkSnapshot w fc) ∧
    length fc = length items ∧
    ∀ i item, items !! i = Some item →
      ∃ p, fc !! i = Some p ∧ forecast_item item = Some p.
Proof.
  intros (lst & fc & Hl & Hm & ->)%updater_inv.
  destruct lst as [| | | | |items|]; try discriminate. cbn in Hm.
  exists items, fc. split; [done|]. split; [apply lookup_insert_eq|].
  split; [symmetry; by eapply length_mapM|].
  intros i item Hi. apply mapM_Some_1 in Hm.
  destruct (Forall2_lookup_l _ _ _ _ _ Hm Hi) as (p & Hp & Hf). by exists p.
Qed.

(** X12: a later update for the same city replaces the earlier snapshot
    as a whole, and updates for two different cities give the same store
    in either order. *)
Theorem updater_overwrites_and_commutes (a b : string) (wa fa wb fb : value)
    (prevData : gmap string Snapshot) :
  (∀ mid, updater a wa fa prevData = Some mid →
     updater a wb fb mid = updater a wb fb prevData) ∧
  (a ≠ b →
     (updater a wa fa prevData ≫= updater b wb fb)
     = (updater b wb fb prevData ≫= updater a wa fa)).
Proof.
  split.
  - intros mid (lst & fc & _ & _ & ->)%updater_inv.
    rewrite !updater_eq. destruct (get fb "list" ≫= js_map forecast_item); cbn; [|done].
    by rewrite insert_insert_eq.
  - intros Hne. rewrite !updater_eq.
    destruct (get fa "list" ≫= js_map forecast_item) as [fca|] eqn:Ha;
      destruct (get fb "list" ≫= js_map forecast_item) as [fcb|] eqn:Hb; cbn;
      rewrite ?updater_eq, ?Ha, ?Hb; cbn; try done.
    f_equal. by apply insert_insert_ne.
Qed.

(** X13: the error that is logged is that of the first request that
    fails; when the current-conditions request fails, the answer to the
    forecast request plays no part. *)
Theorem fetchWeather_first_failure (cityName : string) (net : Network) :
  (∀ e net',
     axios_get net (weather_url cityName) = Rejected e →
     net' (weather_url cityName) = net (weather_url cityName) →
     fetchWeather cityName net' = ConsoleError "Error fetching the weather data" e) ∧
  (∀ w e,
     axios_get net (weather_url cityName) = Fulfilled w →
     axios_get net (forecast_url cityName) = Rejected e →
     fetchWeather cityName net = ConsoleError "Error fetching the weather data" e).
Proof.
  split.
  - intros e net' Hrej Hsame. unfold fetchWeather.
    assert (Hget : axios_get net' (weather_url cityName) = Rejected e).
    { unfold axios_get in *. by rewrite Hsame. }
    by rewrite Hget.
  - intros w e Hw Hf. unfold fetchWeather. by rewrite Hw, Hf.
Qed.

End Fetch.

Example forecast_item_unconvertible_dt :
  forecast_item
    (VObj [ ("dt", VObj [("toString", VNum 0)]);
            ("main", VObj [("temp", VNum 1)]); ("wind", VObj [("speed", VNum 1)]);
            ("weather", VArr [VObj [("description", VStr "mist")]]) ]) = None ∧
  ToNumber_throws (VArr [VNull; VArr [VObj [("toString", VNum 0)]]]) = true ∧
  ToNumber_throws (VObj [("valueOf", VNum 0)]) = false ∧
  ToNumber_throws (VStr "12") = false.
Proof. by repeat split. Qed.

Lemma forecast_item_reads_witness :
  ∃ p,
    forecast_item (forecast_entry 1700006400 (175 # 10) (62 # 1) (4 # 1) "light rain") = Some p ∧
    temp p = VNum (175 # 10) ∧ humidity p = VNum (62 # 1) ∧
    description p = VStr "light rain".
Proof.
  destruct (forecast_item_reads
              (forecast_entry 1700006400 (175 # 10) (62 # 1) (4 # 1) "light rain"))
    as [_ Hp].
  eexists. split; [reflexivity|].
  destruct (Hp _ eq_refl) as (_ & Ht & _ & Hh & _ & Hd & _).
  split; [exact Ht|]. split; [exact Hh | exact Hd].
Defined.

Lemma updater_keeps_provider_order_witness :
  ∃ next items fc,
    updater "Paris" paris_current paris_forecast ∅ = Some next ∧
    get paris_forecast "list" = Some (VArr items) ∧
    next !! "Paris" = Some (mkSnapshot paris_current fc) ∧
    length fc = length items.
Proof.
  assert (Hnext : ∃ next, updater "Paris" paris_current paris_forecast ∅ = Some next)
    by (eexists; reflexivity).
  destruct Hnext as [next Hnext].
  destruct (updater_keeps_provider_order _ _ _ _ _ Hnext)
    as (items & fc & Hl & Hn & Hlen & _).
  exists next, items, fc. split; [exact Hnext|]. split; [exact Hl|].
  split; [exact Hn | exact Hlen].
Defined.

Lemma updater_overwrites_and_commutes_witness :
  (updater "Paris" paris_current paris_forecast ∅
     ≫= updater "Oslo" VNull (VObj [("list", VArr [])]))
  = (updater "Oslo" VNull (VObj [("list", VArr [])]) ∅
     ≫= updater "Paris" paris_current paris_forecast).
Proof.
  destruct (updater_overwrites_and_commutes "Paris" "Oslo" paris_current paris_forecast
              VNull (VObj [("list", VArr [])]) ∅) as [_ Hc].
  apply Hc. discriminate.
Defined.

Lemma fetchWeather_first_failure_witness :
  fetchWeather "Atlantis" unreachable
    = ConsoleError "Error fetching the weather data" ErrNetwork ∧
  fetchWeather "Paris" (forecast_down "Paris" paris_current)
    = ConsoleError "Error fetching the weather data" (ErrBadStatus 503).
Proof.
  destruct (fetchWeather_first_failure "Atlantis" unreachable) as [Hw _].
  destruct (fetchWeather_first_failure "Paris" (forecast_down "Paris" paris_current))
    as [_ Hf].
  split.
  - apply Hw; reflexivity.
  - apply (Hf paris_current); reflexivity.
Defined.

(** ** Settling fetches *)

Lemma remove_first_comm (a b : string) (l : list string) :
  remove_first a (remove_first b l) = remove_first b (remove_first a l).
Proof.
  induction l as [|y l IH]; [done|]. cbn.
  destruct (String.eqb_spec b y) as [->|Hb]; destruct (String.eqb_spec a y) as [->|Ha];
    cbn; rewrite ?String.eqb_refl; try done.
  rewrite (proj2 (String.eqb_neq a y) Ha), (proj2 (String.eqb_neq b y) Hb).
  by rewrite IH.
Qed.

Lemma elem_of_remove_first_ne (a b : string) (l : list string) :
  a ≠ b → b ∈ remove_first a l ↔ b ∈ l.
Proof.
  intros Hne. split; [apply elem_of_remove_first|].
  induction l as [|y l IH]; [done|]. cbn.
  destruct (String.eqb_spec a y) as [->|Ha].
  - intros [?|?]%elem_of_cons; done.
  - intros [->|?]%elem_of_cons; [left | right; by apply IH].
Qed.

Section Settle.
Context `{RT : Runtime}.

Lemma fetchWeather_outcome (cityName : string) (net : Network) :
  (∃ e, fetchWeather cityName net = ConsoleError "Error fetching the weather data" e) ∨
  (∃ w fd, fetchWeather cityName net = SetWeatherData (updater cityName w fd)).
Proof.
  unfold fetchWeather.
  destruct (axios_get net (weather_url cityName)) as [w|e]; [|left; by exists e].
  destruct (axios_get net (forecast_url cityName)) as [fd|e]; [|left; by exists e].
  right. by exists w, fd.
Qed.


End Settle.

Section SettleOrder.
Context `{RT : Runtime}.

Lemma settle_log (cityName : string) (net : Network) (st : State) (e : AxiosError) :
  fetchWeather cityName net = ConsoleError "Error fetching the weather data" e →
  settle cityName net st =
    if bool_decide (cityName ∈ inflight st) then
      Some (mkState (city st) (cities st) (weatherData st)
                    (remove_first cityName (inflight st))
                    (console st ++ [("Error fetching the weather data", e)]))
    else None.
Proof. intros H. unfold settle. by rewrite H. Qed.

Lemma settle_write (cityName : string) (net : Network) (st : State) (w fd : value) :
  fetchWeather cityName net = SetWeatherData (updater cityName w fd) →
  settle cityName net st =
    if bool_decide (cityName ∈ inflight st) then
      match get fd "list" ≫= js_map forecast_item with
      | Some fc =>
          Some (mkState (city st) (cities st)
                        (<[cityName := mkSnapshot w fc]> (weatherData st))
                        (remove_first cityName (inflight st)) (console st))
      | None => None
      end
    else None.
Proof.
  intros H. unfold settle. rewrite H, updater_eq.
  by destruct (get fd "list" ≫= js_map forecast_item).
Qed.

(** X15: two fetches for different cities may settle in either order:
    both orders are possible or impossible together, and they end in the
    same input box, registry, store and running fetches, with the same
    log lines. *)
Theorem settle_order_irrelevant (a b : string) (neta netb : Network) (st : State) :
  a ≠ b →
  match settle a neta st ≫= settle b netb, settle b netb st ≫= settle a neta with
  | Some s1, Some s2 =>
      city s1 = city s2 ∧ cities s1 = cities s2 ∧ weatherData s1 = weatherData s2 ∧
      inflight s1 = inflight s2 ∧ console s1 ≡ₚ console s2
  | None, None => True
  | _, _ => False
  end.
Proof.
  intros Hne.
  assert (Hba : ∀ l, bool_decide (b ∈ remove_first a l) = bool_decide (b ∈ l))
    by (intros l; apply bool_decide_ext, elem_of_remove_first_ne; done).
  assert (Hab : ∀ l, bool_decide (a ∈ remove_first b l) = bool_decide (a ∈ l))
    by (intros l; apply bool_decide_ext, elem_of_remove_first_ne; done).
  destruct (fetchWeather_outcome a neta) as [[ea Ha]|(wa & fa & Ha)];
    destruct (fetchWeather_outcome b netb) as [[eb Hb]|(wb & fb & Hb)].
  - rewrite (settle_log a neta st ea Ha), (settle_log b netb st eb Hb).
    destruct (bool_decide (a ∈ inflight st)) eqn:Ia;
      destruct (bool_decide (b ∈ inflight st)) eqn:Ib; cbn;
      rewrite ?(settle_log a neta _ ea Ha), ?(settle_log b netb _ eb Hb); cbn;
      rewrite ?Hba, ?Hab, ?Ia, ?Ib; try done.
    repeat split; cbn; [apply remove_first_comm|].
    rewrite <- !app_assoc. apply Permutation_app_head. apply Permutation_swap.
  - rewrite (settle_log a neta st ea Ha), (settle_write b netb st wb fb Hb).
    destruct (bool_decide (a ∈ inflight st)) eqn:Ia;
      destruct (bool_decide (b ∈ inflight st)) eqn:Ib;
      destruct (get fb "list" ≫= js_map forecast_item) as [fcb|] eqn:Fb; cbn;
      rewrite ?(settle_log a neta _ ea Ha), ?(settle_write b netb _ wb fb Hb); cbn;
      rewrite ?Hba, ?Hab, ?Ia, ?Ib, ?Fb; try done.
    repeat split; cbn; try done; apply remove_first_comm.
  - rewrite (settle_write a neta st wa fa Ha), (settle_log b netb st eb Hb).
    destruct (bool_decide (a ∈ inflight st)) eqn:Ia;
      destruct (bool_decide (b ∈ inflight st)) eqn:Ib;
      destruct (get fa "list" ≫= js_map forecast_item) as [fca|] eqn:Fa; cbn;
      rewrite ?(settle_write a neta _ wa fa Ha), ?(settle_log b netb _ eb Hb); cbn;
      rewrite ?Hba, ?Hab, ?Ia, ?Ib, ?Fa; try done.
    repeat split; cbn; try done; apply remove_first_comm.
  - rewrite (settle_write a neta st wa fa Ha), (settle_write b netb st wb fb Hb).
    destruct (bool_decide (a ∈ inflight st)) eqn:Ia;
      destruct (bool_decide (b ∈ inflight st)) eqn:Ib;
      destruct (get fa "list" ≫= js_map forecast_item) as [fca|] eqn:Fa;
      destruct (get fb "list" ≫= js_map forecast_item) as [fcb|] eqn:Fb; cbn;
      rewrite ?(settle_write a neta _ wa fa Ha), ?(settle_write b netb _ wb fb Hb); cbn;
      rewrite ?Hba, ?Hab, ?Ia, ?Ib, ?Fa, ?Fb; try done.
    repeat split; cbn; try done; [|apply remove_first_comm].
    by apply insert_insert_ne.
Qed.

End SettleOrder.


Lemma settle_order_irrelevant_witness :
  match settle "Oslo" unreachable (addCity "Paris" (addCity "Oslo" initial))
          ≫= settle "Paris" paris_network,
        settle "Paris" paris_network (addCity "Paris" (addCity "Oslo" initial))
          ≫= settle "Oslo" unreachable with
  | Some s1, Some s2 =>
      city s1 = city s2 ∧ cities s1 = cities s2 ∧ weatherData s1 = weatherData s2 ∧
      inflight s1 = inflight s2 ∧ console s1 ≡ₚ console s2
  | None, None => True
  | _, _ => False
  end.
Proof. apply settle_order_irrelevant. discriminate. Defined.

(** ** Grouping for arbitrary date keys (lines 210-219) *)

Lemma insert_by_index_Permutation {A : Type} (e : N * A) (l : list (N * A)) :
  insert_by_index e l ≡ₚ e :: l.
Proof.
  induction l as [|e' l IH]; [done|]. cbn.
  destruct (e.1 <=? e'.1)%N; [done|].
  rewrite IH. apply Permutation_swap.
Qed.

Lemma Object_entries_Permutation {A : Type} (o : JsObject A) :
  Object_entries o ≡ₚ o.
Proof.
  unfold Object_entries.
  set (F := fun e : string * A => n ← array_index e.1; Some (n, e)).
  assert (Hsort : foldr insert_by_index [] (omap F o) ≡ₚ omap F o).
  { induction (omap F o) as [|x l IH]; [done|]. cbn.
    by rewrite insert_by_index_Permutation, IH. }
  rewrite Hsort. clear Hsort.
  induction o as [|e o IH]; [done|].
  cbn [omap list_omap filter list_filter]. unfold F at 1.
  destruct (array_index e.1) as [n|] eqn:Hn; cbn.
  - destruct (decide (Some n = None)) as [?|_]; [done|].
    apply Permutation_skip, IH.
  - destruct (decide (None = None)) as [_|?]; [|done].
    rewrite <- Permutation_middle. apply Permutation_skip, IH.
Qed.

Section AnyKeys.
Context `{RT : Runtime}.

Lemma groups_of_keys (l : list ForecastPoint) :
  (groups_of l).*1 = keep_first (map day_of l).
Proof.
  unfold groups_of.
  induction (keep_first (map day_of l)) as [|d ds IH]; [done|].
  cbn. by rewrite IH.
Qed.

Lemma groups_of_items (l : list ForecastPoint) (ks : list string) :
  NoDup ks →
  concat (map (fun d => (d, filter (fun p => day_of p = d) l)) ks).*2
  ≡ₚ filter (fun p => day_of p ∈ ks) l.
Proof.
  induction 1 as [|d ks Hd Hnd IH]; cbn.
  - symmetry. apply Permutation_nil_r.
    induction l as [|p l IHl]; [done|].
    by rewrite filter_cons_False by apply not_elem_of_nil.
  - rewrite IH. clear IH.
    induction l as [|p l IHl]; [done|].
    rewrite !filter_cons.
    destruct (decide (day_of p = d)) as [Hp|Hp].
    + rewrite decide_False by (by rewrite Hp).
      rewrite decide_True by (rewrite Hp; left). cbn. by rewrite IHl.
    + destruct (decide (day_of p ∈ ks)) as [Hin|Hnin].
      * rewrite decide_True by (by right).
        rewrite <- Permutation_middle. by rewrite IHl.
      * rewrite decide_False; [done|].
        intros [?|?]%elem_of_cons; done.
Qed.

Lemma group_step_inherited (l : list ForecastPoint) (p : ForecastPoint) :
  Forall (fun q => day_of q ∉ Object_prototype_names) l →
  day_of p ∈ Object_prototype_names →
  group_step (groups_of l) p = None.
Proof.
  intros Hall Hp. unfold group_step, obj_get, groups_of. cbv zeta.
  rewrite assoc_mapped. rewrite decide_False.
  - by rewrite bool_decide_eq_true_2.
  - rewrite elem_of_keep_first. intros Hin.
    apply list_elem_of_In, in_map_iff in Hin as (q & Hq & Hqin).
    apply list_elem_of_In in Hqin.
    apply (proj1 (Forall_forall _ _) Hall q Hqin). by rewrite Hq.
Qed.

Lemma reduce_groups_of_any (l1 l2 : list ForecastPoint) :
  Forall (fun p => day_of p ∉ Object_prototype_names) l1 →
  reduce group_step (groups_of l1) l2 =
    if decide (Forall (fun p => day_of p ∉ Object_prototype_names) l2)
    then Some (groups_of (l1 ++ l2)) else None.
Proof.
  revert l1. induction l2 as [|p l2 IH]; intros l1 Hl1; cbn [reduce].
  - rewrite decide_True by constructor. by rewrite app_nil_r.
  - destruct (decide (day_of p ∈ Object_prototype_names)) as [Hp|Hp].
    + rewrite group_step_inherited by done. cbn.
      rewrite decide_False; [done|]. intros [? _]%Forall_cons. done.
    + rewrite group_step_groups_of by done. cbn.
      rewrite IH by (apply Forall_app; split; [done|by constructor]).
      rewrite <- app_assoc. cbn [app].
      destruct (decide (Forall _ l2)) as [H2|H2].
      * rewrite decide_True by (by constructor). done.
      * rewrite decide_False; [done|]. intros [_ ?]%Forall_cons. done.
Qed.

(** X16: the grouping of lines 210-219 taken on its own (the [reduce]
    into [groupedForecast] and [Object.entries] of it, before the body of
    a card is built), for any date keys: it throws exactly when the key of
    some point is the name of an inherited member of the accumulator
    object; otherwise its entries are the groups of the forecast by day,
    possibly in another order, no two entries share a key, and together
    they hold every point of the forecast exactly once. *)
Theorem forecastCards_any_keys (forecast : list ForecastPoint) :
  (forecastCards forecast = None ↔
   Exists (fun p => day_of p ∈ Object_prototype_names) forecast) ∧
  (∀ groups, forecastCards forecast = Some groups →
     groups ≡ₚ groups_of forecast ∧
     NoDup groups.*1 ∧
     concat groups.*2 ≡ₚ forecast).
Proof.
  unfold forecastCards, groupedForecast.
  change (@nil (string * list ForecastPoint)) with (groups_of []).
  rewrite reduce_groups_of_any by constructor. cbn [app].
  destruct (decide (Forall (fun p => day_of p ∉ Object_prototype_names) forecast))
    as [Hall|Hnall]; cbn.
  - split.
    + split; [discriminate|]. intros Hex. apply Exists_exists in Hex as (p & Hp & Hin).
      by apply (proj1 (Forall_forall _ _) Hall p Hp) in Hin.
    + intros groups [= <-].
      assert (Hperm := Object_entries_Permutation (groups_of forecast)).
      split; [done|]. split.
      * rewrite Hperm, groups_of_keys. apply NoDup_keep_first.
      * rewrite Hperm. unfold groups_of.
        rewrite groups_of_items by apply NoDup_keep_first.
        rewrite filter_all; [done|].
        intros p Hp. apply elem_of_keep_first, list_elem_of_In, in_map.
        by apply list_elem_of_In.
  - split; [|discriminate]. split; [|done]. intros _.
    apply not_Forall_Exists in Hnall; [|intros p; apply _].
    eapply Exists_impl; [exact Hnall|]. intros p Hp. cbn in Hp.
    by apply dec_stable in Hp.
Qed.

End AnyKeys.

Lemma forecastCards_any_keys_witness :
  ∃ groups,
    forecastCards three_points = Some groups ∧
    NoDup groups.*1 ∧ concat groups.*2 ≡ₚ three_points.
Proof.
  assert (Hg : ∃ groups, forecastCards three_points = Some groups)
    by (eexists; reflexivity).
  destruct Hg as [groups Hg].
  destruct (forecastCards_any_keys three_points) as [_ Hsome].
  destruct (Hsome groups Hg) as (_ & Hnd & Hc).
  exists groups. split; [exact Hg|]. split; [exact Hnd | exact Hc].
Defined.

(** ** From the provider's payload to the chart *)

Lemma map_Forall2 {A B C : Type} (R : A → B → Prop) (g : A → C) (h : B → C)
    (l : list A) (k : list B) :
  (∀ x y, R x y → h y = g x) → Forall2 R l k → map h k = map g l.
Proof.
  intros Hgh. induction 1 as [|x y l k Hxy _ IH]; [done|].
  cbn. by rewrite IH, (Hgh x y Hxy).
Qed.

Section EndToEnd.
Context `{RT : Runtime}.

(** X18: the chart of a city that has been fetched shows the provider's
    values: its labels are the times of day of the entries' timestamps and
    its three series are the entries' [main.temp], [main.humidity] and
    [wind.speed], in the provider's order. *)
Theorem chart_of_fetched_city (cityName : string) (w fd : value)
    (prevData next : gmap string Snapshot) :
  updater cityName w fd prevData = Some next →
  ∃ items snapshot,
    get fd "list" = Some (VArr items) ∧
    next !! cityName = Some snapshot ∧
    labels (generateChartData (forecast snapshot))
      = map (fun item => toLocaleTimeString (new_Date (prop item "dt"))) items ∧
    map data (datasets (generateChartData (forecast snapshot)))
      = [ map (fun item => prop (prop item "main") "temp") items;
          map (fun item => prop (prop item "main") "humidity") items;
          map (fun item => prop (prop item "wind") "speed") items ].
Proof.
  intros (lst & fc & Hl & Hm & ->)%updater_inv.
  destruct lst as [| | | | |items|]; try discriminate. cbn in Hm.
  apply mapM_Some_1 in Hm.
  exists items, (mkSnapshot w fc). split; [done|]. split; [apply lookup_insert_eq|].
  cbn. split; [|f_equal; [|f_equal; [|f_equal]]];
    (eapply map_Forall2; [|exact Hm]); intros item p Hp; cbn in Hp;
    rewrite forecast_item_eq in Hp;
    (destruct (item_readable item); [|discriminate Hp]);
    by injection Hp as <-.
Qed.

End EndToEnd.

Lemma chart_of_fetched_city_witness :
  ∃ next snapshot,
    updater "Paris" paris_current paris_forecast ∅ = Some next ∧
    next !! "Paris" = Some snapshot ∧
    map data (datasets (generateChartData (forecast snapshot)))
      = [ [VNum (175 # 10); VNum (161 # 10)];
          [VNum (62 # 1); VNum (70 # 1)];
          [VNum (4 # 1); VNum (35 # 10)] ].
Proof.
  assert (Hnext : ∃ next, updater "Paris" paris_current paris_forecast ∅ = Some next)
    by (eexists; reflexivity).
  destruct Hnext as [next Hnext].
  destruct (chart_of_fetched_city _ _ _ _ _ Hnext)
    as (items & snapshot & Hl & Hn & _ & Hd).
  exists next, snapshot. split; [exact Hnext|]. split; [exact Hn|].
  rewrite Hd. injection Hl as <-. reflexivity.
Defined.

(** ** The request URLs (lines 93-94) *)

Lemma string_app_length (s t : string) :
  String.length (s +:+ t) = (String.length s + String.length t)%nat.
Proof.
  induction s as [|c s IH]; [done|].
  change (String c s +:+ t) with (String c (s +:+ t)). cbn. by rewrite IH.
Qed.

Lemma string_app_inj_l (s1 s2 t : string) : s1 +:+ t = s2 +:+ t → s1 = s2.
Proof.
  intros H.
  assert (Hlen : String.length s1 = String.length s2).
  { apply (f_equal String.length) in H. rewrite !string_app_length in H. lia. }
  revert s2 H Hlen. induction s1 as [|c s1 IH]; intros [|c' s2] H Hlen;
    try discriminate; [done|].
  change (String c (s1 +:+ t) = String c' (s2 +:+ t)) in H.
  injection H as -> H. f_equal. apply IH; [done|]. cbn in Hlen. lia.
Qed.

Section Urls.
Context `{RT : Runtime}.

(** X19: the two requests of a fetch never have the same URL, and the
    requests for two different city names have different URLs; the name is
    put into the URL as typed. *)
Theorem request_urls_distinct (a b : string) :
  weather_url a ≠ forecast_url b ∧
  (weather_url a = weather_url b → a = b) ∧
  (forecast_url a = forecast_url b → a = b).
Proof.
  unfold weather_url, forecast_url. split; [|split].
  - intros H. vm_compute in H. discriminate H.
  - intros H. apply (inj (String.app _)) in H. by apply string_app_inj_l in H.
  - intros H. apply (inj (String.app _)) in H. by apply string_app_inj_l in H.
Qed.

End Urls.

Lemma request_urls_distinct_witness :
  weather_url "Paris" = weather_url "Paris" ∧ weather_url "Paris" ≠ forecast_url "Paris".
Proof.
  destruct (request_urls_distinct "Paris" "Paris") as (Hd & _ & _).
  split; [reflexivity | exact Hd].
Defined.

Lemma handleDeleteCity_frame_witness :
  "Rome" ∈ cities (handleDeleteCity "Oslo" (addCity "Rome" (addCity "Oslo" initial))) ∧
  inflight (handleDeleteCity "Oslo" (addCity "Rome" (addCity "Oslo" initial)))
    = ["Oslo"; "Rome"].
Proof.
  destruct (handleDeleteCity_frame "Oslo" (addCity "Rome" (addCity "Oslo" initial)))
    as (_ & Hk & Hi & _).
  split; [|exact Hi].
  destruct (Hk "Rome") as [Hin _]; [discriminate|].
  apply Hin. vm_compute. apply list_elem_of_further, list_elem_of_here.
Defined.

(** ** Icons: rules that hide later rules, and the flag in use *)

Ltac not_listed :=
  let H := fresh in
  intros H;
  repeat (apply elem_of_cons in H as [H|H]; [discriminate H|]);
  by apply elem_of_nil in H.

(** X20: a rule hides the rules below it: a description that contains
    "rain" never gets the thunderstorm, snow, fog or dust icon, and one
    that contains "shower" or "drizzle" never gets the rain icon either. *)
Theorem getWeatherIcon_hidden_rules (description : string) (b : bool) :
  (includes (toLowerCase description) "rain" = true →
   component (getWeatherIcon description b) ∉ [WiThunderstorm; WiSnow; WiFog; WiDust]) ∧
  (includes (toLowerCase description) "shower" = true ∨
   includes (toLowerCase description) "drizzle" = true →
   component (getWeatherIcon description b)
     ∉ [WiRain; WiThunderstorm; WiSnow; WiFog; WiDust]).
Proof.
  unfold getWeatherIcon. cbv zeta. split.
  - intros Hr. rewrite Hr.
    repeat match goal with
    | |- context [includes ?s ?k] => destruct (includes s k); cbn [orb]
    end; destruct b; cbn; not_listed.
  - intros Hs.
    assert (Hor : includes (toLowerCase description) "shower"
                  || includes (toLowerCase description) "drizzle" = true)
      by (destruct Hs as [-> | ->]; [done | apply orb_true_r]).
    destruct (includes (toLowerCase description) "clear");
      [destruct b; cbn; not_listed|].
    destruct (includes (toLowerCase description) "few clouds");
      [destruct b; cbn; not_listed|].
    destruct (includes (toLowerCase description) "scattered clouds");
      [cbn; not_listed|].
    destruct (includes (toLowerCase description) "broken clouds"
              || includes (toLowerCase description) "overcast");
      [cbn; not_listed|].
    rewrite Hor. cbn. not_listed.
Qed.

Lemma getWeatherIcon_hidden_rules_witness :
  getWeatherIcon "thunderstorm with light rain" true = mkElement WiRain 64 ∧
  (component (getWeatherIcon "thunderstorm with light rain" true)
     ∉ [WiThunderstorm; WiSnow; WiFog; WiDust]) ∧
  (component (getWeatherIcon "heavy shower snow" true)
     ∉ [WiRain; WiThunderstorm; WiSnow; WiFog; WiDust]).
Proof.
  destruct (getWeatherIcon_hidden_rules "thunderstorm with light rain" true) as [Hr _].
  destruct (getWeatherIcon_hidden_rules "heavy shower snow" true) as [_ Hs].
  split; [reflexivity|]. split.
  - apply Hr. reflexivity.
  - apply Hs. left. reflexivity.
Defined.

(** X21: with the flag computed by [isDay], a clear description gets the
    night icon for every timestamp that is not strictly between the given
    sunrise and sunset, so also for any time of a later day, and the
    day icon strictly between them; likewise for few clouds. *)
Theorem getWeatherIcon_with_isDay (description : string) (t sunrise sunset : Z) :
  (includes (toLowerCase description) "clear" = true →
   (t <= sunrise ∨ sunset <= t →
      getWeatherIcon description (isDay t sunrise sunset) = mkElement WiNightClear 64) ∧
   (sunrise < t ∧ t < sunset →
      getWeatherIcon description (isDay t sunrise sunset) = mkElement WiDaySunny 64)) ∧
  (includes (toLowerCase description) "clear" = false →
   includes (toLowerCase description) "few clouds" = true →
   (t <= sunrise ∨ sunset <= t →
      getWeatherIcon description (isDay t sunrise sunset) = mkElement WiNightAltCloudy 64) ∧
   (sunrise < t ∧ t < sunset →
      getWeatherIcon description (isDay t sunrise sunset) = mkElement WiDayCloudy 64)).
Proof.
  assert (Hnight : t <= sunrise ∨ sunset <= t → isDay t sunrise sunset = false).
  { intros H. unfold isDay. apply andb_false_iff. rewrite !Z.ltb_ge. tauto. }
  assert (Hday : sunrise < t ∧ t < sunset → isDay t sunrise sunset = true).
  { intros H. unfold isDay. apply andb_true_iff. rewrite !Z.ltb_lt. tauto. }
  unfold getWeatherIcon. cbv zeta. split.
  - intros ->. split; intros H.
    + by rewrite (Hnight H).
    + by rewrite (Hday H).
  - intros -> ->. split; intros H.
    + by rewrite (Hnight H).
    + by rewrite (Hday H).
Qed.

Lemma getWeatherIcon_with_isDay_witness :
  getWeatherIcon "clear sky" (isDay 1700049600 1699945000 1699980000)
    = mkElement WiNightClear 64 ∧
  getWeatherIcon "clear sky" (isDay 1699963200 1699945000 1699980000)
    = mkElement WiDaySunny 64.
Proof.
  destruct (getWeatherIcon_with_isDay "clear sky" 1700049600 1699945000 1699980000)
    as [Hn _].
  destruct (getWeatherIcon_with_isDay "clear sky" 1699963200 1699945000 1699980000)
    as [Hd _].
  split.
  - apply Hn; [reflexivity|]. right. lia.
  - apply Hd; [reflexivity|]. lia.
Defined.
